(** * tolcan: query builder, record mapper and transactions

    A shallow embedding of the TypeScript sources of the tolcan ORM
    (core/query-builder.ts, core/model.ts, core/transaction.ts and
    core/database.ts) together with the properties of the specification
    that concern parameter numbering, the WHERE safety gates, primary-key
    handling and the transaction state machine.

    Conventions of the embedding:
    - a JavaScript object is the list of its own enumerable entries in
      the order [Object.entries] yields them (column names are not
      array-index strings, so this is insertion order);
    - a [number] held by a value is integer valued ([Z]); the [number]
      arguments of limit and offset and of the findAll options are
      integers or NaN ([number]), with their truthiness and their
      template-literal printing;
    - asynchronous methods are sequential state transformers over a
      [World] that records what was handed to the pg driver; a rejected
      promise is the [Throw] outcome. *)

From Stdlib Require Import String Ascii List ZArith Lia Bool Arith.
From Stdlib Require Import DecimalString DecimalNat DecimalZ.
Import ListNotations.
Open Scope list_scope.
Open Scope string_scope.

(* ================================================================== *)
(** ** JavaScript values, objects and string helpers *)

Module JS.

#[local] Set Warnings "-register-all".

Inductive value : Type :=
| VUndefined
| VNull
| VBool (b : bool)
| VNum (n : Z)
| VStr (s : string)
| VArr (elems : list value)
| VObj (fields : list (string * value))
| VFun (name : string).

(** An object as the ordered list of its own enumerable entries. *)
Definition obj := list (string * value).

(** [!!v] in JavaScript. *)
Definition truthy (v : value) : bool :=
  match v with
  | VUndefined | VNull => false
  | VBool b => b
  | VNum n => negb (n =? 0)%Z
  | VStr s => negb (s =? "")
  | VArr _ | VObj _ | VFun _ => true
  end.

(** [typeof v === 'function'] *)
Definition is_function (v : value) : bool :=
  match v with VFun _ => true | _ => false end.

(** [o[k]]: the value of the own property, [undefined] when there is none. *)
Fixpoint get (o : obj) (k : string) : value :=
  match o with
  | [] => VUndefined
  | (k', v) :: o' => if k' =? k then v else get o' k
  end.

(** [o.hasOwnProperty(k)] *)
Fixpoint has (o : obj) (k : string) : bool :=
  match o with
  | [] => false
  | (k', _) :: o' => (k' =? k) || has o' k
  end.

(** [o[k] = v]: overwrite in place, or append a new own property. *)
Fixpoint set (o : obj) (k : string) (v : value) : obj :=
  match o with
  | [] => [(k, v)]
  | (k', v') :: o' =>
      if k' =? k then (k', v) :: o' else (k', v') :: set o' k v
  end.

(** [Object.assign(target, source)] *)
Definition assign (target source : obj) : obj :=
  fold_left (fun t kv => set t (fst kv) (snd kv)) source target.

Definition keys (o : obj) : list string := map fst o.
Definition values (o : obj) : list value := map snd o.

(** [xs.join(sep)] *)
Definition join (sep : string) (xs : list string) : string :=
  String.concat sep xs.

(** Template-literal printing of a non-negative counter and of a number
    (plain decimal digits, as JavaScript prints integers below 1e21). *)
Definition show_nat (n : nat) : string :=
  NilEmpty.string_of_uint (Nat.to_uint n).

Definition show_Z (z : Z) : string :=
  NilEmpty.string_of_int (Z.to_int z).

(** The [number] arguments of [limit], [offset] and of the options of
    [findAll]: an integer or NaN. *)
Inductive number : Type :=
| Int (n : Z)
| NaN.
Coercion Int : Z >-> number.
Bind Scope Z_scope with number.

(** [!!x] for a number: 0 and NaN are falsy. *)
Definition number_truthy (x : number) : bool :=
  match x with
  | Int n => negb (n =? 0)%Z
  | NaN => false
  end.

(** [`${x}`] for a number. *)
Definition show_number (x : number) : string :=
  match x with
  | Int n => show_Z n
  | NaN => "NaN"
  end.

Definition is_digit (c : ascii) : bool :=
  match c with
  | "0" | "1" | "2" | "3" | "4" | "5" | "6" | "7" | "8" | "9" => true
  | _ => false
  end%char.

Definition is_dollar (c : ascii) : bool := Ascii.eqb c "$".

(** [s.includes('$')] *)
Fixpoint includes_dollar (s : string) : bool :=
  match s with
  | "" => false
  | String c s' => is_dollar c || includes_dollar s'
  end.

Definition starts_with_digit (s : string) : bool :=
  match s with
  | String c _ => is_digit c
  | "" => false
  end.

(** [s.replace(/\$\d+/g, () => `$${k++}`)], as the scanner the regular
    expression denotes: matches are found left to right, each match is a
    dollar sign followed by the longest run of digits, and matching
    resumes after the match.  [inside] is true while the digits of the
    current match are being consumed.  The counter after the last
    replacement is returned with the new string. *)
Fixpoint replace_placeholders (inside : bool) (s : string) (k : nat)
  : string * nat :=
  match s with
  | "" => ("", k)
  | String c s' =>
      if inside && is_digit c then replace_placeholders true s' k
      else if is_dollar c && starts_with_digit s' then
        let (r, k') := replace_placeholders true s' (S k) in
        ("$" ++ show_nat k ++ r, k')
      else
        let (r, k') := replace_placeholders false s' k in
        (String c r, k')
  end.

(** [String.prototype.toLowerCase].  On a string of ASCII characters it
    maps A-Z to a-z and leaves the rest.  A string with other characters
    is lower-cased by the engine's Unicode tables, which are not
    modelled: for such a string the result is the one the engine gives,
    passed as [by_engine]. *)
Definition lower_char (c : ascii) : ascii :=
  let n := nat_of_ascii c in
  if ((65 <=? n) && (n <=? 90))%nat then ascii_of_nat (n + 32) else c.

Fixpoint lower_ascii (s : string) : string :=
  match s with
  | "" => ""
  | String c s' => String (lower_char c) (lower_ascii s')
  end.

Fixpoint ascii_only (s : string) : bool :=
  match s with
  | "" => true
  | String c s' => (nat_of_ascii c <? 128)%nat && ascii_only s'
  end.

Definition toLowerCase (s by_engine : string) : string :=
  if ascii_only s then lower_ascii s else by_engine.

End JS.
Import JS.

(* ================================================================== *)
(** ** Observing placeholders in SQL text

    These functions are not part of the program: they read the positional
    placeholders back out of a rendered SQL text, with the same lexical
    rule the driver's dialect (and the program's own regular expression)
    uses: a dollar sign followed by a maximal run of digits. *)

Module Sql.

Fixpoint take_digits (s : string) : string :=
  match s with
  | String c s' => if is_digit c then String c (take_digits s') else ""
  | "" => ""
  end.

Definition read_nat (ds : string) : nat :=
  match NilEmpty.uint_of_string ds with
  | Some d => Nat.of_uint d
  | None => 0
  end.

(** The placeholder numbers of [s], left to right. *)
Fixpoint scan (inside : bool) (s : string) : list nat :=
  match s with
  | "" => []
  | String c s' =>
      if inside && is_digit c then scan true s'
      else if is_dollar c && starts_with_digit s' then
        read_nat (take_digits s') :: scan true s'
      else scan false s'
  end.

Definition placeholders (s : string) : list nat := scan false s.



(** The placeholders of a list of fragments, fragment by fragment. *)
Definition placeholders_of (fragments : list string) : list nat :=
  concat (map placeholders fragments).

(** Whether a statement asks for rows back: its text, letter case
    aside, holds the word RETURNING. *)
Definition mentions_returning (sql : string) : bool :=
  match String.index 0 "returning" (lower_ascii sql) with
  | Some _ => true
  | None => false
  end.

End Sql.

(* ================================================================== *)
(** ** Outcomes, the driver and the world (core/database.ts)

    The connection pool and the server behind it are external: the world
    carries their behaviour as two oracles, [pg] (what the driver answers
    to a statement, given everything it was sent before) and
    [uuid_source] (the successive results of [crypto.randomUUID()]). *)

Inductive exn : Type :=
| Error (message : string)
| TypeError (message : string).

Inductive result (A : Type) : Type :=
| Ok (a : A)
| Throw (e : exn).
Arguments Ok {A} a.
Arguments Throw {A} e.

(** A checked-out pool connection, by identity. *)
Definition PoolClient := nat.

(** One call [executor.query(text, params)]; an omitted parameter array
    is the empty list.  [on_client] tells whether the executor was a
    pinned connection or the pool. *)
Record Stmt : Type := {
  text : string;
  params : list value;
  on_client : option PoolClient }.

Record QueryResult : Type := {
  rows : list obj;
  rowCount : option nat }.

Record World : Type := {
  connected : bool;               (* Database.pool is not null *)
  idle : list PoolClient;         (* connections the pool can hand out *)
  history : list Stmt;            (* statements given to the driver *)
  released : list PoolClient;     (* calls of client.release() *)
  uuids : nat;                    (* calls of randomUUID() *)
  pg : list Stmt -> Stmt -> result QueryResult;
  uuid_source : nat -> string }.

(** Sequential computations over a store [S]: a rejected promise or a
    thrown error is [Throw], and keeps the effects made so far. *)
Definition St (S A : Type) : Type := S -> result A * S.

Definition M (A : Type) : Type := St World A.

Definition ret {S A} (a : A) : St S A := fun s => (Ok a, s).
Definition throw {S A} (e : exn) : St S A := fun s => (Throw e, s).
Definition bind {S A B} (m : St S A) (k : A -> St S B) : St S B :=
  fun s => match m s with
           | (Ok a, s') => k a s'
           | (Throw e, s') => (Throw e, s')
           end.

Notation "x <- m ;; k" := (bind m (fun x => k))
  (at level 61, m at next level, right associativity).

(** [try { body } catch (error) { handler(error) }] *)
Definition try_catch {S A} (body : St S A) (handler : exn -> St S A)
  : St S A :=
  fun s => match body s with
           | (Ok a, s') => (Ok a, s')
           | (Throw e, s') => handler e s'
           end.

Module Database.

Definition record_stmt (s : Stmt) (w : World) : World :=
  {| connected := connected w; idle := idle w;
     history := (history w ++ [s])%list;
     released := released w; uuids := uuids w;
     pg := pg w; uuid_source := uuid_source w |}.

(** [executor.query(text, params)] of the pg driver. *)
Definition executor_query (s : Stmt) : M QueryResult :=
  fun w => (pg w (history w) s, record_stmt s w).

Definition getPool : M unit :=
  fun w => if connected w then (Ok tt, w)
           else (Throw (Error "Database not connected. Call connect() first."), w).

(** [const executor = client || this.getPool(); return executor.query(...)] *)
Definition query (sql : string) (ps : list value) (client : option PoolClient)
  : M QueryResult :=
  match client with
  | Some c => executor_query {| text := sql; params := ps; on_client := Some c |}
  | None =>
      _ <- getPool ;;
      executor_query {| text := sql; params := ps; on_client := None |}
  end.

(** [pool.connect()]: hands out an idle connection, or rejects when the
    pool has none to give within its timeout. *)
Definition pool_connect : M PoolClient :=
  fun w => match idle w with
           | [] => (Throw (Error "timeout exceeded when trying to connect"), w)
           | c :: rest =>
               (Ok c, {| connected := connected w; idle := rest;
                         history := history w; released := released w;
                         uuids := uuids w; pg := pg w;
                         uuid_source := uuid_source w |})
           end.

Definition getClient : M PoolClient :=
  _ <- getPool ;; pool_connect.

(** [client.release()] *)
Definition release (c : PoolClient) : M unit :=
  fun w => (Ok tt, {| connected := connected w; idle := idle w;
                      history := history w;
                      released := (released w ++ [c])%list;
                      uuids := uuids w; pg := pg w;
                      uuid_source := uuid_source w |}).

(** [randomUUID()] *)
Definition randomUUID : M string :=
  fun w => (Ok (uuid_source w (uuids w)),
            {| connected := connected w; idle := idle w;
               history := history w; released := released w;
               uuids := S (uuids w); pg := pg w;
               uuid_source := uuid_source w |}).

(** Whether a statement would reach the driver at all. *)
Definition reachable (client : option PoolClient) (w : World) : bool :=
  match client with Some _ => true | None => connected w end.

End Database.

(* ================================================================== *)
(** ** core/types.ts *)

Inductive PrimaryKeyType : Type := serial | uuid.

Inductive Direction : Type := ASC | DESC.

Record OrderBy : Type := {
  column : string;
  direction : option Direction }.

Definition show_direction (d : Direction) : string :=
  match d with ASC => "ASC" | DESC => "DESC" end.

(** The first argument of [where]: a raw fragment or a field map. *)
Inductive WhereArg : Type :=
| Raw (fragment : string)
| Fields (condition : obj).

(* ================================================================== *)
(** ** core/query-builder.ts *)

Module QB.

Record QueryBuilder : Type := {
  tableName : string;
  whereConditions : list string;
  whereParams : list value;
  orderByClause : string;
  limitClause : string;
  offsetClause : string;
  paramCounter : nat;
  client : option PoolClient;
  primaryKeyType : PrimaryKeyType;
  primaryKey : string }.

(** [new QueryBuilder(database, tableName, client, primaryKeyType, primaryKey)] *)
Definition new (table : string) (c : option PoolClient)
    (pkType : PrimaryKeyType) (pk : string) : QueryBuilder :=
  {| tableName := table; whereConditions := []; whereParams := [];
     orderByClause := ""; limitClause := ""; offsetClause := "";
     paramCounter := 1; client := c;
     primaryKeyType := pkType; primaryKey := pk |}.

(** [this.whereConditions.push(cond); this.whereParams.push(...vals)],
    with the counter left at [k]. *)
Definition push (qb : QueryBuilder) (cond : string) (vals : list value)
    (k : nat) : QueryBuilder :=
  {| tableName := tableName qb;
     whereConditions := (whereConditions qb ++ [cond])%list;
     whereParams := (whereParams qb ++ vals)%list;
     orderByClause := orderByClause qb; limitClause := limitClause qb;
     offsetClause := offsetClause qb; paramCounter := k;
     client := client qb; primaryKeyType := primaryKeyType qb;
     primaryKey := primaryKey qb |}.

(** [val.map(() => `$${this.paramCounter++}`)] from counter [k]. *)
Fixpoint in_placeholders (elems : list value) (k : nat) : list string * nat :=
  match elems with
  | [] => ([], k)
  | _ :: rest =>
      let (ps, k') := in_placeholders rest (S k) in
      (("$" ++ show_nat k) :: ps, k')
  end.

(** The body of the [for (const [key, val] of Object.entries(condition))]
    loop. *)
Definition where_entry (qb : QueryBuilder) (kv : string * value)
  : QueryBuilder :=
  let (key, val) := kv in
  match val with
  | VNull | VUndefined =>
      push qb (key ++ " IS NULL") [] (paramCounter qb)
  | VArr elems =>
      let (ps, k') := in_placeholders elems (paramCounter qb) in
      push qb (key ++ " IN (" ++ join ", " ps ++ ")") elems k'
  | _ =>
      push qb (key ++ " = $" ++ show_nat (paramCounter qb)) [val]
           (S (paramCounter qb))
  end.

Definition where_ (condition : WhereArg) (val : value) (qb : QueryBuilder)
  : QueryBuilder :=
  match condition with
  | Raw fragment =>
      match val with
      | VUndefined => push qb fragment [] (paramCounter qb)
      | _ => push qb fragment [val] (paramCounter qb)
      end
  | Fields o => fold_left where_entry o qb
  end.

Definition with_orderBy (qb : QueryBuilder) (clause : string) : QueryBuilder :=
  {| tableName := tableName qb; whereConditions := whereConditions qb;
     whereParams := whereParams qb; orderByClause := clause;
     limitClause := limitClause qb; offsetClause := offsetClause qb;
     paramCounter := paramCounter qb; client := client qb;
     primaryKeyType := primaryKeyType qb; primaryKey := primaryKey qb |}.

Definition orderBy (col : string) (dir : option Direction) (qb : QueryBuilder)
  : QueryBuilder :=
  let d := match dir with Some d => d | None => ASC end in
  with_orderBy qb ("ORDER BY " ++ col ++ " " ++ show_direction d).

Definition orderByMultiple (orders : list OrderBy) (qb : QueryBuilder)
  : QueryBuilder :=
  let orderParts :=
    map (fun o => column o ++ " " ++
                  show_direction (match direction o with
                                  | Some d => d
                                  | None => ASC
                                  end)) orders in
  with_orderBy qb ("ORDER BY " ++ join ", " orderParts).

Definition limit (count : number) (qb : QueryBuilder) : QueryBuilder :=
  {| tableName := tableName qb; whereConditions := whereConditions qb;
     whereParams := whereParams qb; orderByClause := orderByClause qb;
     limitClause := "LIMIT " ++ show_number count;
     offsetClause := offsetClause qb;
     paramCounter := paramCounter qb; client := client qb;
     primaryKeyType := primaryKeyType qb; primaryKey := primaryKey qb |}.

Definition offset (count : number) (qb : QueryBuilder) : QueryBuilder :=
  {| tableName := tableName qb; whereConditions := whereConditions qb;
     whereParams := whereParams qb; orderByClause := orderByClause qb;
     limitClause := limitClause qb;
     offsetClause := "OFFSET " ++ show_number count;
     paramCounter := paramCounter qb; client := client qb;
     primaryKeyType := primaryKeyType qb; primaryKey := primaryKey qb |}.

Definition buildWhereClause (qb : QueryBuilder) : string :=
  match whereConditions qb with
  | [] => ""
  | _ => "WHERE " ++ join " AND " (whereConditions qb)
  end.

(** [if (clause) query += ` ${clause}`] *)
Definition add_clause (query clause : string) : string :=
  if clause =? "" then query else query ++ " " ++ clause.

Definition select_sql (columns : list string) (qb : QueryBuilder) : string :=
  let query := "SELECT " ++ join ", " columns ++ " FROM " ++ tableName qb in
  let query := add_clause query (buildWhereClause qb) in
  let query := add_clause query (orderByClause qb) in
  let query := add_clause query (limitClause qb) in
  add_clause query (offsetClause qb).

Definition select (columns : list string) (qb : QueryBuilder)
  : M (list obj) :=
  r <- Database.query (select_sql columns qb) (whereParams qb) (client qb) ;;
  ret (rows r).

(** [values.map((_, i) => `$${i + 1}`)] from index [i]. *)
Fixpoint insert_placeholders (vals : list value) (i : nat) : list string :=
  match vals with
  | [] => []
  | _ :: rest => ("$" ++ show_nat (i + 1)) :: insert_placeholders rest (S i)
  end.

Definition nl : string := String "010"%char "".

Definition insert_sql (table : string) (insertData : obj) : string :=
  nl ++ "      INSERT INTO " ++ table ++ " ("
     ++ join ", " (keys insertData) ++ ")" ++
  nl ++ "      VALUES ("
     ++ join ", " (insert_placeholders (values insertData) 0) ++ ")" ++
  nl ++ "      RETURNING *" ++
  nl ++ "    ".

(** The first half of [insert]: the copy of [data], with a generated
    identifier put under the primary key when the strategy is [uuid] and
    [!insertData[this.primaryKey]] holds. *)
Definition insert_data (qb : QueryBuilder) (data : obj) : M obj :=
  match primaryKeyType qb with
  | uuid =>
      if negb (truthy (get data (primaryKey qb))) then
        id <- Database.randomUUID ;;
        ret (set data (primaryKey qb) (VStr id))
      else ret data
  | serial => ret data
  end.

(** [insert] returns [result.rows[0]]: [None] is [undefined]. *)
Definition insert (qb : QueryBuilder) (data : obj) : M (option obj) :=
  insertData <- insert_data qb data ;;
  r <- Database.query (insert_sql (tableName qb) insertData)
                      (values insertData) (client qb) ;;
  ret (hd_error (rows r)).

(** The loop of [update] that rebuilds the conditions; [k] is
    [whereParamIndex]. *)
Fixpoint renumber (conds : list string) (k : nat) : list string :=
  match conds with
  | [] => []
  | condition :: rest =>
      if includes_dollar condition then
        let (updatedCondition, k') := replace_placeholders false condition k in
        updatedCondition :: renumber rest k'
      else condition :: renumber rest k
  end.

(** [columns.map((col, i) => `${col} = $${i + 1}`)] from index [i]. *)
Fixpoint set_parts (columns : list string) (i : nat) : list string :=
  match columns with
  | [] => []
  | col :: rest => (col ++ " = $" ++ show_nat (i + 1)) :: set_parts rest (S i)
  end.

Definition update_where (qb : QueryBuilder) (data : obj) : string :=
  let paramOffset := length (values data) in
  match renumber (whereConditions qb) (paramOffset + 1) with
  | [] => ""
  | conds => "WHERE " ++ join " AND " conds
  end.

Definition update_sql (qb : QueryBuilder) (data : obj) : string :=
  let setClause := join ", " (set_parts (keys data) 0) in
  let query := "UPDATE " ++ tableName qb ++ " SET " ++ setClause in
  add_clause query (update_where qb data).

Definition update (qb : QueryBuilder) (data : obj) : M (list obj) :=
  let allParams := (values data ++ whereParams qb)%list in
  r <- Database.query (update_sql qb data) allParams (client qb) ;;
  ret (rows r).

Definition delete_sql (qb : QueryBuilder) : string :=
  "DELETE FROM " ++ tableName qb ++ " " ++ buildWhereClause qb.

(** [delete] returns [result.rowCount || 0]. *)
Definition delete (qb : QueryBuilder) : M nat :=
  if buildWhereClause qb =? "" then
    throw (Error "Delete operation requires a WHERE clause for safety")
  else
    r <- Database.query (delete_sql qb) (whereParams qb) (client qb) ;;
    ret (match rowCount r with Some n => n | None => 0 end).

(** The statement [count] sends. *)
Definition count_sql (qb : QueryBuilder) : string :=
  "SELECT COUNT(*) as count FROM " ++ tableName qb ++ " "
    ++ buildWhereClause qb.

(** [first]: [this.limit(1)], then [select()], then the first row or
    [null] ([None]). *)
Definition first (qb : QueryBuilder) : M (option obj) :=
  results <- select ["*"] (limit 1 qb) ;;
  ret (hd_error results).

End QB.

(* ================================================================== *)
(** ** core/model.ts *)

Module Model.

(** What a subclass of [Model] declares: its name, the three optional
    static fields, and the own fields a [new this()] starts with.  Two
    more fields stand for behaviour of the engine and of the class that
    is not modelled: [lowerName] is [this.name.toLowerCase()] as the
    engine computes it (consulted only for a name with non-ASCII
    characters), and [member_hasOwnProperty] is what a function-valued
    own member named [hasOwnProperty], should instances carry one,
    answers when called as [this.hasOwnProperty(key)]. *)
Record ModelClass : Type := {
  name : string;
  lowerName : string;
  tableName : option string;
  primaryKey : option string;
  primaryKeyType : option PrimaryKeyType;
  fresh : obj;
  member_hasOwnProperty : obj -> string -> result bool }.

Record QueryOptions : Type := { qo_client : option PoolClient }.

Record SelectOptions : Type := {
  so_where : option obj;
  so_orderBy : option (OrderBy + list OrderBy);
  so_limit : option number;
  so_offset : option number;
  so_client : option PoolClient }.

Record UpdateOptions : Type := {
  uo_where : option obj;
  uo_client : option PoolClient }.

Record DeleteOptions : Type := {
  do_where : option obj;
  do_client : option PoolClient }.

(** [options?.field] *)
Definition opt {O A} (options : option O) (field : O -> option A)
  : option A :=
  match options with Some o => field o | None => None end.

Definition getTableName (cls : ModelClass) : string :=
  match tableName cls with
  | Some t =>
      if t =? "" then toLowerCase (name cls) (lowerName cls) ++ "s" else t
  | None => toLowerCase (name cls) (lowerName cls) ++ "s"
  end.

Definition getPrimaryKey (cls : ModelClass) : string :=
  match primaryKey cls with
  | Some k => if k =? "" then "id" else k
  | None => "id"
  end.

Definition getPrimaryKeyType (cls : ModelClass) : PrimaryKeyType :=
  match primaryKeyType cls with Some t => t | None => serial end.

Definition query (cls : ModelClass) (client : option PoolClient)
  : QB.QueryBuilder :=
  QB.new (getTableName cls) client (getPrimaryKeyType cls) (getPrimaryKey cls).

(** [const instance = new this(); Object.assign(instance, row)] *)
Definition materialize (cls : ModelClass) (row : obj) : obj :=
  assign (fresh cls) row.

Definition find (cls : ModelClass) (id : value) (options : option QueryOptions)
  : M (option obj) :=
  let primaryKey := getPrimaryKey cls in
  result <- QB.first (QB.where_ (Fields [(primaryKey, id)]) VUndefined
                                (query cls (opt options qo_client))) ;;
  ret (option_map (materialize cls) result).

(** [findAll]: each option is applied when it is truthy. *)
Definition findAll_builder (cls : ModelClass) (options : option SelectOptions)
  : QB.QueryBuilder :=
  let builder := query cls (opt options so_client) in
  let builder :=
    match opt options so_where with
    | Some w => QB.where_ (Fields w) VUndefined builder
    | None => builder
    end in
  let builder :=
    match opt options so_orderBy with
    | Some (inr orders) => QB.orderByMultiple orders builder
    | Some (inl o) => QB.orderBy (column o) (direction o) builder
    | None => builder
    end in
  let builder :=
    match opt options so_limit with
    | Some n => if number_truthy n then QB.limit n builder else builder
    | None => builder
    end in
  match opt options so_offset with
  | Some n => if number_truthy n then QB.offset n builder else builder
  | None => builder
  end.

Definition findAll (cls : ModelClass) (options : option SelectOptions)
  : M (list obj) :=
  results <- QB.select ["*"] (findAll_builder cls options) ;;
  ret (map (materialize cls) results).

Definition create (cls : ModelClass) (data : obj)
    (options : option QueryOptions) : M obj :=
  result <- QB.insert (query cls (opt options qo_client)) data ;;
  ret (match result with
       | Some row => materialize cls row
       | None => fresh cls
       end).

Definition update (cls : ModelClass) (data : obj)
    (options : option UpdateOptions) : M (list obj) :=
  let builder := query cls (opt options uo_client) in
  match opt options uo_where with
  | Some w =>
      results <- QB.update (QB.where_ (Fields w) VUndefined builder) data ;;
      ret (map (materialize cls) results)
  | None => throw (Error "Update requires a WHERE clause")
  end.

Definition delete (cls : ModelClass) (options : option DeleteOptions)
  : M nat :=
  let builder := query cls (opt options do_client) in
  match opt options do_where with
  | Some w => QB.delete (QB.where_ (Fields w) VUndefined builder)
  | None => throw (Error "Delete requires a WHERE clause")
  end.

(** [this.hasOwnProperty(key)].  Without an own member of that name the
    call reaches [Object.prototype.hasOwnProperty]; an own member that is
    not a function makes the call throw; an own member that is a
    function is called. *)
Definition hasOwnProperty (cls : ModelClass) (this : obj) (key : string)
  : result bool :=
  if has this "hasOwnProperty" then
    match get this "hasOwnProperty" with
    | VFun _ => member_hasOwnProperty cls this key
    | _ => Throw (TypeError "this.hasOwnProperty is not a function")
    end
  else Ok (has this key).

(** The loop of [save] that collects the SET / INSERT data: every own
    property other than the primary key that is not a function.  [l]
    holds the properties still to visit, [data] what was collected. *)
Fixpoint own_data_loop (cls : ModelClass) (primaryKey : string)
    (this l data : obj) : result obj :=
  match l with
  | [] => Ok data
  | kv :: rest =>
      let key := fst kv in
      match hasOwnProperty cls this key with
      | Throw e => Throw e
      | Ok own =>
          if own && negb (key =? primaryKey)
             && negb (is_function (get this key))
          then own_data_loop cls primaryKey this rest
                 (set data key (get this key))
          else own_data_loop cls primaryKey this rest data
      end
  end.

Definition own_data (cls : ModelClass) (primaryKey : string) (this : obj)
  : result obj :=
  own_data_loop cls primaryKey this this [].



(** The loop of [toJSON]: every own property that is not a function. *)
Fixpoint toJSON_loop (cls : ModelClass) (this l json : obj) : result obj :=
  match l with
  | [] => Ok json
  | kv :: rest =>
      let key := fst kv in
      match hasOwnProperty cls this key with
      | Throw e => Throw e
      | Ok own =>
          if own && negb (is_function (get this key))
          then toJSON_loop cls this rest (set json key (get this key))
          else toJSON_loop cls this rest json
      end
  end.

Definition toJSON (cls : ModelClass) (this : obj) : result obj :=
  toJSON_loop cls this this [].

(** [{ ...options, limit: 1 }] *)
Definition with_limit_one (options : option SelectOptions)
  : option SelectOptions :=
  Some {| so_where := opt options so_where;
          so_orderBy := opt options so_orderBy;
          so_limit := Some (Int 1);
          so_offset := opt options so_offset;
          so_client := opt options so_client |}.

(** [findOne] returns the first result or [null] ([None]). *)
Definition findOne (cls : ModelClass) (options : option SelectOptions)
  : M (option obj) :=
  results <- findAll cls (with_limit_one options) ;;
  ret (hd_error results).

End Model.

(* ================================================================== *)
(** ** core/transaction.ts *)

Module Transaction.

Record Transaction : Type := {
  client : PoolClient;
  committed : bool;
  rolledBack : bool }.

(** The methods run on the transaction object and the world together;
    the unit of work given to [transaction] receives the same object. *)
Definition TM (A : Type) : Type := St (Transaction * World) A.

Definition new (c : PoolClient) : Transaction :=
  {| client := c; committed := false; rolledBack := false |}.

Definition lift {A} (m : M A) : TM A :=
  fun s => let (r, w') := m (snd s) in (r, (fst s, w')).

(** [this.client.query(sql)] *)
Definition client_query (sql : string) : TM QueryResult :=
  fun s =>
    lift (Database.executor_query
            {| text := sql; params := []; on_client := Some (client (fst s)) |})
         s.

Definition client_release : TM unit :=
  fun s => lift (Database.release (client (fst s))) s.

Definition set_committed : TM unit :=
  fun s => (Ok tt, ({| client := client (fst s); committed := true;
                       rolledBack := rolledBack (fst s) |}, snd s)).

Definition set_rolledBack : TM unit :=
  fun s => (Ok tt, ({| client := client (fst s);
                       committed := committed (fst s);
                       rolledBack := true |}, snd s)).

Definition begin : TM unit :=
  _ <- client_query "BEGIN" ;; ret tt.

Definition commit : TM unit :=
  fun s =>
    if committed (fst s) then
      throw (Error "Transaction already committed") s
    else if rolledBack (fst s) then
      throw (Error "Transaction already rolled back") s
    else
      (_ <- client_query "COMMIT" ;;
       _ <- set_committed ;;
       client_release) s.

Definition rollback : TM unit :=
  fun s =>
    if committed (fst s) then
      throw (Error "Transaction already committed") s
    else if rolledBack (fst s) then
      ret tt s
    else
      (_ <- client_query "ROLLBACK" ;;
       _ <- set_rolledBack ;;
       client_release) s.

Definition getClient : TM PoolClient := fun s => (Ok (client (fst s)), s).
Definition isCommitted : TM bool := fun s => (Ok (committed (fst s)), s).
Definition isRolledBack : TM bool := fun s => (Ok (rolledBack (fst s)), s).

(** The [try { ... } catch (error) { ... }] of the helper. *)
Definition transaction_body {T} (callback : TM T) : TM T :=
  try_catch
    (_ <- begin ;;
     result <- callback ;;
     _ <- commit ;;
     ret result)
    (fun error => _ <- rollback ;; throw error).

(** [transaction(callback)]: the unit of work is a computation that has
    the [Transaction] object and the world at hand. *)
Definition transaction {T} (callback : TM T) : M T :=
  c <- Database.getClient ;;
  fun w => let (r, s) := transaction_body callback (new c, w) in (r, snd s).

End Transaction.

(* ================================================================== *)
(** ** Fixtures: concrete classes, drivers and worlds used to run the
    definitions *)

Module Fixtures.

Definition User : Model.ModelClass :=
  {| Model.name := "User"; Model.lowerName := "user";
     Model.tableName := Some "users";
     Model.primaryKey := Some "id"; Model.primaryKeyType := Some serial;
     Model.fresh := [];
     Model.member_hasOwnProperty := fun this key => Ok (has this key) |}.

Definition Product : Model.ModelClass :=
  {| Model.name := "Product"; Model.lowerName := "product";
     Model.tableName := Some "products";
     Model.primaryKey := Some "id"; Model.primaryKeyType := Some uuid;
     Model.fresh := [];
     Model.member_hasOwnProperty := fun this key => Ok (has this key) |}.

(** A server that accepts every statement and reports one affected row,
    returning the row it is given. *)
Definition answers (row : obj) : list Stmt -> Stmt -> result QueryResult :=
  fun _ _ => Ok {| rows := [row]; rowCount := Some 1 |}.

(** A server that answers as PostgreSQL does: one affected row for every
    statement, and the row it is given for every statement except an
    UPDATE or DELETE that has no RETURNING clause, which gets no rows. *)
Definition postgres (row : obj) : list Stmt -> Stmt -> result QueryResult :=
  fun _ s =>
    Ok {| rows := if (String.prefix "UPDATE " (text s)
                      || String.prefix "DELETE " (text s))
                     && negb (Sql.mentions_returning (text s))
                  then [] else [row];
          rowCount := Some 1 |}.

(** A connection that rejects every statement. *)
Definition broken : list Stmt -> Stmt -> result QueryResult :=
  fun _ _ => Throw (Error "Connection terminated unexpectedly").

(** A connection that is lost after its first statement. *)
Definition lost_after_first : list Stmt -> Stmt -> result QueryResult :=
  fun sent _ =>
    match sent with
    | [] => Ok {| rows := []; rowCount := None |}
    | _ :: _ => Throw (Error "Connection terminated unexpectedly")
    end.

Definition fixed_uuid : nat -> string :=
  fun _ => "3f2b8c1e-5d4a-4c6b-9e7f-0a1b2c3d4e5f".

Definition world (driver : list Stmt -> Stmt -> result QueryResult) : World :=
  {| connected := true; idle := [7]; history := []; released := [];
     uuids := 0; pg := driver; uuid_source := fixed_uuid |}.

Definition users : QB.QueryBuilder := QB.new "users" None serial "id".

End Fixtures.

(* ================================================================== *)
(** ** Statements and invariants the properties are stated with *)

(** The statement [QB.update] hands to the driver. *)
Definition update_stmt (qb : QB.QueryBuilder) (data : obj) : Stmt :=
  {| text := QB.update_sql qb data;
     params := (values data ++ QB.whereParams qb)%list;
     on_client := QB.client qb |}.

(** The statement [QB.select] hands to the driver. *)
Definition select_stmt (columns : list string) (qb : QB.QueryBuilder) : Stmt :=
  {| text := QB.select_sql columns qb;
     params := QB.whereParams qb;
     on_client := QB.client qb |}.

(** The statement [QB.delete] hands to the driver once past its gate. *)
Definition delete_stmt (qb : QB.QueryBuilder) : Stmt :=
  {| text := "DELETE FROM " ++ QB.tableName qb ++ " WHERE "
             ++ join " AND " (QB.whereConditions qb);
     params := QB.whereParams qb;
     on_client := QB.client qb |}.

(** The statement [QB.insert] hands to the driver for the data it ends
    up inserting. *)
Definition insert_stmt (qb : QB.QueryBuilder) (insertData : obj) : Stmt :=
  {| text := QB.insert_sql (QB.tableName qb) insertData;
     params := values insertData;
     on_client := QB.client qb |}.

(** Sending [s]: the driver's answer turned into the caller's result by
    [f], and the world with [s] recorded; nothing is sent when there is
    neither a pinned connection nor a connected pool. *)
Definition send {A} (s : Stmt) (f : QueryResult -> A) : M A :=
  fun w =>
    if Database.reachable (on_client s) w then
      (match pg w (history w) s with
       | Ok r => Ok (f r)
       | Throw e => Throw e
       end, Database.record_stmt s w)
    else (Throw (Error "Database not connected. Call connect() first."), w).

(** [result.rowCount || 0] *)
Definition affected (r : QueryResult) : nat :=
  match rowCount r with Some n => n | None => 0 end.

(** Whether [insert] draws an identifier: the strategy is [uuid] and
    [!insertData[this.primaryKey]] holds. *)
Definition generates (qb : QB.QueryBuilder) (data : obj) : bool :=
  match QB.primaryKeyType qb with
  | uuid => negb (truthy (get data (QB.primaryKey qb)))
  | serial => false
  end.

(** [findAll] options as an object literal. *)
Definition select_options (wh : option obj)
    (ob : option (OrderBy + list OrderBy)) (lim off : option number)
    (c : option PoolClient) : option Model.SelectOptions :=
  Some {| Model.so_where := wh; Model.so_orderBy := ob;
          Model.so_limit := lim; Model.so_offset := off;
          Model.so_client := c |}.

(** The own data fields of an instance other than the primary key:
    function-valued members are left out. *)
Definition data_fields (pk : string) (this : obj) : obj :=
  filter (fun kv => negb (fst kv =? pk) && negb (is_function (snd kv))) this.


(** A transaction-control statement on the pinned connection. *)
Definition control (c : PoolClient) (sql : string) : Stmt :=
  {| text := sql; params := []; on_client := Some c |}.

(** The driver accepts [s] in world [w]. *)
Definition accepted (s : Stmt) (w : World) : Prop :=
  exists answer, pg w (history w) s = Ok answer.

(** A driver that behaves as PostgreSQL does in this respect: the
    answer to an UPDATE or a DELETE without a RETURNING clause holds no
    rows. *)
Definition postgres_like (w : World) : Prop :=
  forall sent s r,
    pg w sent s = Ok r ->
    String.prefix "UPDATE " (text s) || String.prefix "DELETE " (text s)
    = true ->
    Sql.mentions_returning (text s) = false ->
    rows r = [].

(** The builder calls that are not [where]. *)
Inductive Shaping : Type :=
| SOrderBy (col : string) (dir : option Direction)
| SOrderByMultiple (orders : list OrderBy)
| SLimit (count : number)
| SOffset (count : number).

Definition shape (qb : QB.QueryBuilder) (call : Shaping) : QB.QueryBuilder :=
  match call with
  | SOrderBy col dir => QB.orderBy col dir qb
  | SOrderByMultiple orders => QB.orderByMultiple orders qb
  | SLimit n => QB.limit n qb
  | SOffset n => QB.offset n qb
  end.

(** What one field of a field map appends to the parameter list. *)
Definition appended_values (v : value) : list value :=
  match v with
  | VNull | VUndefined => []
  | VArr elems => elems
  | _ => [v]
  end.

(** Text that holds nothing the dialect reads as a placeholder. *)
Definition clean (s : string) : Prop := Sql.placeholders s = [].

(** A chain of builder calls: field-map [where] calls and the calls that
    are not [where]. *)
Inductive BuilderCall : Type :=
| BWhere (condition : obj)
| BShape (call : Shaping).

Definition build (qb : QB.QueryBuilder) (call : BuilderCall)
  : QB.QueryBuilder :=
  match call with
  | BWhere o => QB.where_ (Fields o) VUndefined qb
  | BShape s => shape qb s
  end.

Definition clean_call (call : BuilderCall) : Prop :=
  match call with
  | BWhere o => Forall (fun kv => clean (fst kv)) o
  | BShape (SOrderBy col _) => clean col
  | BShape (SOrderByMultiple orders) => Forall (fun o => clean (column o)) orders
  | BShape _ => True
  end.


(** Calls made on a [Transaction] by its holder, each awaited and its
    error, if any, caught. *)
Inductive TxCall : Type := TxBegin | TxCommit | TxRollback.

Definition tx_step (s : Transaction.Transaction * World) (call : TxCall)
  : Transaction.Transaction * World :=
  match call with
  | TxBegin => snd (Transaction.begin s)
  | TxCommit => snd (Transaction.commit s)
  | TxRollback => snd (Transaction.rollback s)
  end.

Definition tx_run (calls : list TxCall) (s : Transaction.Transaction * World)
  : Transaction.Transaction * World :=
  fold_left tx_step calls s.

(** A builder whose recorded placeholders are exactly [$1 .. $n] for its
    [n] recorded parameters, with the counter at [n + 1]. *)
Definition numbered (qb : QB.QueryBuilder) : Prop :=
  Sql.placeholders_of (QB.whereConditions qb)
  = seq 1 (length (QB.whereParams qb))
  /\ QB.paramCounter qb = S (length (QB.whereParams qb)).

(* ================================================================== *)
(** ** Facts about decimal printing and placeholder scanning *)

Import Sql.

Lemma append_empty (s : string) : s ++ "" = s.
Proof. induction s as [|c s IH]; simpl; [reflexivity | now rewrite IH]. Qed.

Lemma append_assoc (a b c : string) : (a ++ b) ++ c = a ++ b ++ c.
Proof. induction a as [|x a IH]; simpl; [reflexivity | now rewrite IH]. Qed.

Lemma to_uint_not_Nil (n : nat) : Nat.to_uint n <> Decimal.Nil.
Proof.
  rewrite <- (DecimalNat.Unsigned.of_to n) at 1.
  rewrite DecimalNat.Unsigned.to_of.
  unfold Decimal.unorm. destruct (Decimal.nzhead _); discriminate.
Qed.

Lemma read_nat_show (n : nat) : read_nat (show_nat n) = n.
Proof.
  unfold read_nat, show_nat. rewrite NilEmpty.usu.
  apply DecimalNat.Unsigned.of_to.
Qed.

Lemma uint_starts_with_digit (d : Decimal.uint) (r : string) :
  d <> Decimal.Nil ->
  starts_with_digit (NilEmpty.string_of_uint d ++ r) = true.
Proof. destruct d; simpl; congruence. Qed.

Lemma show_nat_starts_with_digit (n : nat) (r : string) :
  starts_with_digit (show_nat n ++ r) = true.
Proof. apply uint_starts_with_digit, to_uint_not_Nil. Qed.

Lemma take_digits_uint (d : Decimal.uint) (r : string) :
  take_digits (NilEmpty.string_of_uint d ++ r)
  = NilEmpty.string_of_uint d ++ take_digits r.
Proof. induction d; simpl; congruence. Qed.

Lemma take_digits_stop (s : string) :
  starts_with_digit s = false -> take_digits s = "".
Proof. destruct s as [|c s]; simpl; [reflexivity | now intros ->]. Qed.

Lemma scan_uint (d : Decimal.uint) (r : string) :
  scan true (NilEmpty.string_of_uint d ++ r) = scan true r.
Proof. induction d; simpl; auto. Qed.


Lemma scan_cons (inside : bool) (c : ascii) (s : string) :
  scan inside (String c s)
  = if inside && is_digit c then scan true s
    else if is_dollar c && starts_with_digit s
         then read_nat (take_digits s) :: scan true s
         else scan false s.
Proof. reflexivity. Qed.


Lemma scan_true_stop (s : string) :
  starts_with_digit s = false -> scan true s = scan false s.
Proof.
  destruct s as [|c s]; [reflexivity|]. cbn [starts_with_digit]. intros H.
  rewrite !scan_cons, H. reflexivity.
Qed.


Lemma is_dollar_eq (c : ascii) : is_dollar c = true -> c = "$"%char.
Proof. unfold is_dollar. apply Ascii.eqb_eq. Qed.

Lemma dollar_not_digit (c : ascii) : is_dollar c = true -> is_digit c = false.
Proof. intros H. apply is_dollar_eq in H. now subst. Qed.

(** A placeholder written by the program reads back as its number. *)
Lemma scan_placeholder (k : nat) (r : string) :
  starts_with_digit r = false ->
  scan false (String "$" (show_nat k ++ r)) = k :: scan false r.
Proof.
  intros Hr. rewrite scan_cons. cbn [andb is_dollar Ascii.eqb].
  replace (is_dollar "$") with true by reflexivity.
  rewrite show_nat_starts_with_digit. cbn [andb].
  unfold show_nat at 1 2. rewrite take_digits_uint, scan_uint.
  rewrite (take_digits_stop _ Hr), append_empty.
  fold (show_nat k). rewrite read_nat_show.
  now rewrite scan_true_stop.
Qed.


Lemma starts_with_digit_app (a : string) (c : ascii) (b : string) :
  is_digit c = false ->
  starts_with_digit (a ++ String c b) = starts_with_digit a.
Proof. destruct a; simpl; auto. Qed.

Lemma take_digits_app (a : string) (c : ascii) (b : string) :
  is_digit c = false ->
  take_digits (a ++ String c b) = take_digits a.
Proof.
  intros Hc. induction a as [|x a IH]; simpl.
  - now rewrite Hc.
  - now rewrite IH.
Qed.

(** Scanning splits at a character that is neither a digit nor a dollar
    sign: such a character ends any placeholder and starts none. *)
Lemma scan_app_break (inside : bool) (a : string) (c : ascii) (b : string) :
  is_digit c = false -> is_dollar c = false ->
  scan inside (a ++ String c b) = (scan inside a ++ scan false b)%list.
Proof.
  intros Hd Hs. revert inside.
  induction a as [|x a IH]; intros inside.
  - cbn [append]. rewrite scan_cons, Hd, Hs. now rewrite andb_false_r.
  - cbn [append]. rewrite !scan_cons.
    rewrite starts_with_digit_app, take_digits_app by assumption.
    destruct (inside && is_digit x); [apply IH|].
    destruct (is_dollar x && starts_with_digit a); cbn [app]; now rewrite IH.
Qed.

Lemma scan_no_dollar (inside : bool) (s : string) :
  includes_dollar s = false -> scan inside s = [].
Proof.
  revert inside. induction s as [|c s IH]; intros inside; [reflexivity|].
  cbn [includes_dollar]. intros H. apply orb_false_iff in H as [Hc Hs].
  rewrite scan_cons, Hc. cbn [andb].
  destruct (inside && is_digit c); auto.
Qed.


(** Reduces the scan of a text that starts with literal characters. *)
Ltac scan_literal :=
  repeat (rewrite scan_cons;
          cbn [andb is_dollar is_digit Ascii.eqb Bool.eqb starts_with_digit]).

Lemma placeholders_join_and (conds : list string) :
  placeholders (join " AND " conds) = placeholders_of conds.
Proof.
  unfold placeholders_of, placeholders.
  induction conds as [|x conds IH]; [reflexivity|].
  destruct conds as [|y conds].
  - cbn. now rewrite app_nil_r.
  - change (join " AND " (x :: y :: conds))
      with (x ++ " AND " ++ join " AND " (y :: conds)).
    cbn [append]. rewrite scan_app_break by reflexivity.
    scan_literal. rewrite IH. reflexivity.
Qed.


(** [col = $k] followed by text that does not start with a digit. *)
Lemma scan_assignment (col : string) (k : nat) (r : string) :
  placeholders col = [] ->
  starts_with_digit r = false ->
  scan false ((col ++ " = $" ++ show_nat k) ++ r) = k :: scan false r.
Proof.
  unfold placeholders. intros Hcol Hr.
  rewrite !append_assoc. cbn [append].
  rewrite scan_app_break, Hcol by reflexivity.
  cbn [app]. rewrite scan_cons.
  cbn [andb is_dollar is_digit Ascii.eqb Bool.eqb].
  rewrite scan_cons.
  cbn [andb is_dollar is_digit Ascii.eqb Bool.eqb].
  now apply scan_placeholder.
Qed.


Lemma placeholders_add_clause (query clause : string) :
  placeholders (QB.add_clause query clause)
  = (placeholders query ++ placeholders clause)%list.
Proof.
  unfold QB.add_clause, placeholders.
  destruct clause as [|c clause]; cbn [String.eqb].
  - cbn. now rewrite app_nil_r.
  - cbn [append]. now rewrite scan_app_break.
Qed.




(* ================================================================== *)
(** ** What reaches the driver *)

Lemma query_reachable sql ps c w :
  Database.reachable c w = true ->
  Database.query sql ps c w
  = (pg w (history w) {| text := sql; params := ps; on_client := c |},
     Database.record_stmt {| text := sql; params := ps; on_client := c |} w).
Proof.
  unfold Database.reachable, Database.query. destruct c; [reflexivity|].
  intros H. unfold bind, Database.getPool. rewrite H. reflexivity.
Qed.

Lemma query_unreachable sql ps c w :
  Database.reachable c w = false ->
  Database.query sql ps c w
  = (Throw (Error "Database not connected. Call connect() first."), w).
Proof.
  unfold Database.reachable, Database.query. destruct c; [discriminate|].
  intros H. unfold bind, Database.getPool. now rewrite H.
Qed.

(* ================================================================== *)
(** ** Field-map conditions keep the numbering *)

Lemma in_placeholders_spec (elems : list value) :
  forall k,
    snd (QB.in_placeholders elems k) = k + length elems
    /\ forall r, starts_with_digit r = false ->
         scan false (join ", " (fst (QB.in_placeholders elems k)) ++ r)
         = (seq k (length elems) ++ scan false r)%list.
Proof.
  induction elems as [|e rest IH]; intros k.
  - cbn. split; [lia | reflexivity].
  - destruct (IH (S k)) as [I1 I2].
    cbn [QB.in_placeholders].
    destruct (QB.in_placeholders rest (S k)) as [ps k'] eqn:E.
    cbn [fst snd length seq] in *. split; [lia|].
    intros r Hr. destruct ps as [|p ps].
    + destruct rest as [|e' rest].
      * cbn [join String.concat append length seq app].
        now apply scan_placeholder.
      * cbn [QB.in_placeholders] in E.
        destruct (QB.in_placeholders rest (S (S k))). discriminate.
    + change (join ", " (?a :: p :: ps)) with (a ++ ", " ++ join ", " (p :: ps)).
      rewrite !append_assoc. cbn [append].
      rewrite scan_placeholder by reflexivity.
      scan_literal. cbn [app]. f_equal. now apply I2.
Qed.

Lemma where_entry_numbered (qb : QB.QueryBuilder) (kv : string * value) :
  placeholders (fst kv) = [] ->
  numbered qb -> numbered (QB.where_entry qb kv).
Proof.
  destruct kv as [key val]. cbn [fst]. unfold numbered, placeholders_of.
  intros Hkey [Hc Hk].
  assert (Hnull :
    concat (map placeholders (QB.whereConditions qb ++ [key ++ " IS NULL"]))
    = seq 1 (length (QB.whereParams qb ++ []))).
  { rewrite map_app, concat_app, Hc, app_nil_r. cbn [map concat].
    unfold placeholders in *. cbn [append].
    rewrite scan_app_break by reflexivity. rewrite Hkey.
    cbn. now rewrite app_nil_r. }
  assert (Heq : forall v,
    concat (map placeholders
              (QB.whereConditions qb
               ++ [key ++ " = $" ++ show_nat (QB.paramCounter qb)]))
    = seq 1 (length (QB.whereParams qb ++ [v]))).
  { intros v. rewrite map_app, concat_app, Hc, length_app.
    cbn [map concat length]. rewrite seq_app, app_nil_r. f_equal.
    unfold placeholders.
    rewrite <- (append_empty (key ++ _)).
    rewrite scan_assignment by (assumption || reflexivity).
    now rewrite Hk. }
  unfold QB.where_entry.
  destruct val; cbn [QB.push QB.whereConditions QB.whereParams QB.paramCounter];
    try (split; [apply Heq | rewrite length_app; cbn [length]; lia]);
    try (split; [apply Hnull | now rewrite app_nil_r]).
  destruct (in_placeholders_spec elems (QB.paramCounter qb)) as [I1 I2].
  destruct (QB.in_placeholders elems (QB.paramCounter qb)) as [ps k'].
  cbn [fst snd QB.push QB.whereConditions QB.whereParams QB.paramCounter] in *.
  rewrite length_app. split; [|lia].
  rewrite map_app, concat_app, Hc, seq_app. cbn [map concat].
  rewrite app_nil_r. f_equal.
  unfold placeholders in *.
  rewrite <- !append_assoc, !append_assoc. cbn [append].
  rewrite scan_app_break, Hkey by reflexivity. cbn [app].
  scan_literal. rewrite I2 by reflexivity. cbn. rewrite app_nil_r.
  now rewrite Hk.
Qed.

Lemma where_fields_numbered (o : obj) (v : value) :
  Forall (fun kv => placeholders (fst kv) = []) o ->
  forall qb, numbered qb -> numbered (QB.where_ (Fields o) v qb).
Proof.
  cbn [QB.where_]. induction 1 as [|kv o Hkv _ IH]; intros qb Hqb.
  - exact Hqb.
  - cbn [fold_left]. apply IH. now apply where_entry_numbered.
Qed.

Lemma new_numbered table c pkType pk : numbered (QB.new table c pkType pk).
Proof. split; reflexivity. Qed.


(** One condition per field key, appended in entry order. *)
Lemma where_fields_length (o : obj) (v : value) :
  forall qb,
    length (QB.whereConditions (QB.where_ (Fields o) v qb))
    = length (QB.whereConditions qb) + length o.
Proof.
  cbn [QB.where_]. induction o as [|[key val] o IH]; intros qb.
  - cbn. lia.
  - cbn [fold_left length]. rewrite IH. unfold QB.where_entry.
    destruct val; try destruct (QB.in_placeholders _ _);
      cbn [QB.push QB.whereConditions]; rewrite length_app; cbn; lia.
Qed.

Lemma where_fields_params (o : obj) (v : value) :
  forall qb,
    QB.whereParams (QB.where_ (Fields o) v qb)
    = (QB.whereParams qb
       ++ flat_map (fun kv => appended_values (snd kv)) o)%list.
Proof.
  cbn [QB.where_]. induction o as [|[key val] o IH]; intros qb.
  - cbn. now rewrite app_nil_r.
  - cbn [fold_left flat_map snd]. rewrite IH. unfold QB.where_entry.
    destruct val; try destruct (QB.in_placeholders _ _);
      cbn [QB.push QB.whereParams appended_values];
      now rewrite <- app_assoc.
Qed.

(** For a numbered builder the WHERE clause that select, count, delete
    and first render carries [$1 .. $n] for its [n] parameters. *)
Lemma numbered_where_clause (qb : QB.QueryBuilder) :
  numbered qb ->
  placeholders (QB.buildWhereClause qb) = seq 1 (length (QB.whereParams qb)).
Proof.
  intros [Hc _]. unfold QB.buildWhereClause.
  destruct (QB.whereConditions qb) as [|c conds] eqn:E.
  - rewrite <- Hc. reflexivity.
  - unfold placeholders. cbn [append]. scan_literal.
    fold (placeholders (join " AND " (c :: conds))).
    now rewrite placeholders_join_and.
Qed.

(** Any sequence of [where] calls with field maps, on a new builder,
    renders [$1 .. $n] for the [n] values it recorded. *)
Lemma field_map_calls_numbered (calls : list obj) table c pkType pk :
  Forall (Forall (fun kv => placeholders (fst kv) = [])) calls ->
  let qb := fold_left (fun b o => QB.where_ (Fields o) VUndefined b) calls
                      (QB.new table c pkType pk) in
  placeholders (QB.buildWhereClause qb) = seq 1 (length (QB.whereParams qb)).
Proof.
  intros Hcalls. cbn zeta. apply numbered_where_clause.
  generalize (new_numbered table c pkType pk).
  generalize (QB.new table c pkType pk).
  induction Hcalls as [|o calls Ho _ IH]; intros qb Hqb; [exact Hqb|].
  cbn [fold_left]. apply IH. now apply where_fields_numbered.
Qed.

(* ================================================================== *)
(** ** Statements sent by the terminal methods *)

Lemma query_send sql ps c w :
  Database.query sql ps c w
  = send {| text := sql; params := ps; on_client := c |} (fun r => r) w.
Proof.
  unfold send. cbn [on_client].
  destruct (Database.reachable c w) eqn:E.
  - rewrite query_reachable by assumption. now destruct (pg w _ _).
  - now apply query_unreachable.
Qed.

Lemma bind_send {A B} (s : Stmt) (f : QueryResult -> A) (g : A -> B) w :
  (x <- send s f ;; ret (g x)) w = send s (fun r => g (f r)) w.
Proof.
  unfold bind, send, ret.
  destruct (Database.reachable (on_client s) w); [|reflexivity].
  now destruct (pg w (history w) s).
Qed.

Lemma update_send qb data w :
  QB.update qb data w = send (update_stmt qb data) rows w.
Proof.
  unfold QB.update, bind. rewrite query_send. fold (update_stmt qb data).
  unfold send. destruct (Database.reachable _ w); [|reflexivity].
  now destruct (pg w _ _).
Qed.

Lemma update_materialized_send (cls : Model.ModelClass) qb data w :
  (results <- QB.update qb data ;;
   ret (map (Model.materialize cls) results)) w
  = send (update_stmt qb data)
         (fun r => map (fun row => assign (Model.fresh cls) row) (rows r)) w.
Proof.
  unfold bind at 1. rewrite update_send. unfold send.
  destruct (Database.reachable _ w); [|reflexivity].
  now destruct (pg w _ _).
Qed.

Lemma select_send columns qb w :
  QB.select columns qb w = send (select_stmt columns qb) rows w.
Proof.
  unfold QB.select, bind. rewrite query_send. fold (select_stmt columns qb).
  unfold send. destruct (Database.reachable _ w); [|reflexivity].
  now destruct (pg w _ _).
Qed.

Lemma where_clause_empty (qb : QB.QueryBuilder) :
  (QB.buildWhereClause qb =? "") = match QB.whereConditions qb with
                                   | [] => true
                                   | _ :: _ => false
                                   end.
Proof. unfold QB.buildWhereClause. now destruct (QB.whereConditions qb). Qed.

Lemma delete_send qb w :
  QB.delete qb w
  = match QB.whereConditions qb with
    | [] => (Throw (Error "Delete operation requires a WHERE clause for safety"),
             w)
    | _ :: _ => send (delete_stmt qb) affected w
    end.
Proof.
  unfold QB.delete. rewrite where_clause_empty.
  destruct (QB.whereConditions qb) as [|c conds] eqn:E; [reflexivity|].
  unfold bind. rewrite query_send.
  assert (Hs : {| text := QB.delete_sql qb; params := QB.whereParams qb;
                  on_client := QB.client qb |} = delete_stmt qb).
  { unfold delete_stmt, QB.delete_sql, QB.buildWhereClause. now rewrite E. }
  rewrite Hs. unfold send.
  destruct (Database.reachable _ w); [|reflexivity].
  now destruct (pg w _ _).
Qed.

Lemma shape_keeps_where (calls : list Shaping) :
  forall qb,
    QB.whereConditions (fold_left shape calls qb) = QB.whereConditions qb
    /\ QB.whereParams (fold_left shape calls qb) = QB.whereParams qb.
Proof.
  induction calls as [|call calls IH]; intros qb; [now split|].
  cbn [fold_left]. destruct (IH (shape qb call)) as [-> ->].
  now destruct call.
Qed.

(* ================================================================== *)
(** ** Objects *)

Lemma get_set_same (o : obj) (k : string) (v : value) :
  get (set o k v) k = v.
Proof.
  induction o as [|[k' v'] o IH]; cbn [set get].
  - now rewrite String.eqb_refl.
  - destruct (k' =? k) eqn:E; cbn [get]; now rewrite E.
Qed.

Lemma set_fresh (o : obj) (k : string) (v : value) :
  has o k = false -> set o k v = (o ++ [(k, v)])%list.
Proof.
  induction o as [|[k' v'] o IH]; cbn [has set app]; [reflexivity|].
  intros H. apply orb_false_iff in H as [-> H]. now rewrite IH.
Qed.

Lemma set_keeps_keys (o : obj) (k : string) (v : value) :
  has o k = true -> keys (set o k v) = keys o.
Proof.
  induction o as [|[k' v'] o IH]; cbn [has set]; [discriminate|].
  destruct (k' =? k) eqn:E; cbn [orb]; [reflexivity|].
  intros H. cbn [keys map fst]. f_equal. now apply IH.
Qed.

Lemma has_app (a b : obj) (k : string) :
  has (a ++ b)%list k = has a k || has b k.
Proof.
  induction a as [|[k' v'] a IH]; cbn [app has]; [reflexivity|].
  now rewrite IH, orb_assoc.
Qed.

Lemma has_In (o : obj) (k : string) : has o k = true <-> In k (keys o).
Proof.
  induction o as [|[k' v'] o IH]; cbn [has keys map fst In].
  - split; [discriminate | tauto].
  - rewrite orb_true_iff, IH, String.eqb_eq. reflexivity.
Qed.

Lemma has_notIn (o : obj) (k : string) : has o k = false <-> ~ In k (keys o).
Proof.
  rewrite <- has_In. destruct (has o k); split; congruence.
Qed.


Lemma get_set_other (o : obj) (k k' : string) (v : value) :
  (k =? k') = false -> get (set o k v) k' = get o k'.
Proof.
  intros Hk. induction o as [|[k0 v0] o IH]; cbn [set get].
  - now rewrite Hk.
  - destruct (k0 =? k) eqn:E; cbn [get].
    + apply String.eqb_eq in E. subst k0. now rewrite Hk.
    + now rewrite IH.
Qed.


(** [Object.assign] copies every column of the source; the other
    properties of the target stay. *)
Lemma get_assign (source : obj) :
  NoDup (keys source) ->
  forall target k,
    get (assign target source) k
    = if has source k then get source k else get target k.
Proof.
  unfold assign.
  induction source as [|[k0 v0] source IH]; intros Hnd target k;
    cbn [fold_left has get fst snd]; [reflexivity|].
  cbn [keys map fst] in Hnd. inversion Hnd as [|? ? Hnotin Hnd']; subst.
  rewrite IH by assumption.
  destruct (k0 =? k) eqn:E; cbn [orb].
  - apply String.eqb_eq in E. subst k0.
    apply has_notIn in Hnotin. rewrite Hnotin. apply get_set_same.
  - destruct (has source k); [reflexivity|]. now apply get_set_other.
Qed.

Lemma get_in_nodup (o : obj) :
  NoDup (keys o) -> forall kv, In kv o -> get o (fst kv) = snd kv.
Proof.
  induction o as [|[k0 v0] o IH]; intros Hnd kv Hin; [destruct Hin|].
  cbn [keys map fst] in Hnd. inversion Hnd as [|? ? Hnotin Hnd']; subst.
  cbn [get]. destruct Hin as [<- | Hin]; cbn [fst snd].
  - now rewrite String.eqb_refl.
  - destruct (k0 =? fst kv) eqn:E; [|now apply IH].
    apply String.eqb_eq in E. subst k0. exfalso. apply Hnotin.
    unfold keys. now apply in_map.
Qed.

(** ** The builder's clauses under [where] *)

Lemma where_entry_keeps (qb : QB.QueryBuilder) (kv : string * value) :
  let qb' := QB.where_entry qb kv in
  QB.tableName qb' = QB.tableName qb
  /\ QB.orderByClause qb' = QB.orderByClause qb
  /\ QB.limitClause qb' = QB.limitClause qb
  /\ QB.offsetClause qb' = QB.offsetClause qb
  /\ QB.client qb' = QB.client qb.
Proof.
  destruct kv as [key val]. cbn zeta. unfold QB.where_entry.
  destruct val; try destruct (QB.in_placeholders _ _); now cbn.
Qed.

Lemma where_fields_keeps (o : obj) (v : value) :
  forall qb,
    let qb' := QB.where_ (Fields o) v qb in
    QB.tableName qb' = QB.tableName qb
    /\ QB.orderByClause qb' = QB.orderByClause qb
    /\ QB.limitClause qb' = QB.limitClause qb
    /\ QB.offsetClause qb' = QB.offsetClause qb
    /\ QB.client qb' = QB.client qb.
Proof.
  cbn [QB.where_]. induction o as [|kv o IH]; intros qb; cbn zeta.
  - now cbn.
  - cbn [fold_left]. destruct (IH (QB.where_entry qb kv)) as (-> & -> & -> & -> & ->).
    apply where_entry_keeps.
Qed.

(* ================================================================== *)
(** * Properties of the specification *)

(** ** Query builder *)

(** C1. The specification asks that placeholders be [$1 .. $n] in step
    with the parameter list also when field-map conditions are mixed
    with raw fragments, for select, count, delete and first.  The
    builder does not advance its counter for the value of a raw fragment,
    so a field map added after [where('age > $1', 18)] is given [$1]
    again while its value is the second parameter; the README's own
    example (field map first, then a raw fragment written with [$1])
    renders two [$1] as well.  Only [update] renumbers.  For field maps
    alone the numbering holds ([field_map_calls_numbered]). *)
Theorem where_raw_fragment_leaves_counter_behind :
  let w := Fixtures.world (Fixtures.answers []) in
  let raw_first :=
    QB.where_ (Fields [("active", VBool true)]) VUndefined
      (QB.where_ (Raw "age > $1") (VNum 18) Fixtures.users) in
  let fields_first :=
    QB.where_ (Raw "age > $1") (VNum 18)
      (QB.where_ (Fields [("active", VBool true)]) VUndefined Fixtures.users) in
  history (snd (QB.select ["*"] raw_first w))
  = [ {| text := "SELECT * FROM users WHERE age > $1 AND active = $1";
         params := [VNum 18; VBool true];
         on_client := None |} ]
  /\ placeholders (QB.buildWhereClause raw_first) = [1; 1]
  /\ placeholders (QB.buildWhereClause raw_first)
     <> seq 1 (length (QB.whereParams raw_first))
  /\ QB.delete_sql raw_first
     = "DELETE FROM users WHERE age > $1 AND active = $1"
  /\ QB.count_sql raw_first
     = "SELECT COUNT(*) as count FROM users WHERE age > $1 AND active = $1"
  /\ history (snd (QB.first raw_first w))
     = [ {| text := "SELECT * FROM users WHERE age > $1 AND active = $1 LIMIT 1";
            params := [VNum 18; VBool true];
            on_client := None |} ]
  /\ history (snd (QB.select ["*"] fields_first w))
     = [ {| text := "SELECT * FROM users WHERE active = $1 AND age > $1";
            params := [VBool true; VNum 18];
            on_client := None |} ]
  /\ QB.update_sql raw_first [("name", VStr "Jane")]
     = "UPDATE users SET name = $1 WHERE age > $2 AND active = $3".
Proof. cbv zeta. repeat split. discriminate. Qed.




(** C3, as amended.  [QB.delete] fails with the builder's WHERE-required
    error, sending nothing, exactly when no condition is recorded: in
    particular on a new builder after any orderBy / orderByMultiple /
    limit / offset calls.  With a condition it sends
    [DELETE FROM table WHERE ...] and returns the driver's affected-row
    count.  [Model.delete] fails when [options.where] is absent, fails at
    the builder's gate when it is an empty object, and otherwise deletes
    and returns the count. *)
Theorem delete_requires_where (w : World) :
  (forall table c pkType pk calls,
      QB.delete (fold_left shape calls (QB.new table c pkType pk)) w
      = (Throw (Error "Delete operation requires a WHERE clause for safety"),
         w))
  /\ (forall qb,
         QB.delete qb w
         = match QB.whereConditions qb with
           | [] =>
               (Throw (Error "Delete operation requires a WHERE clause for safety"),
                w)
           | _ :: _ => send (delete_stmt qb) affected w
           end)
  /\ (forall cls options,
         Model.delete cls options w
         = match Model.opt options Model.do_where with
           | None => (Throw (Error "Delete requires a WHERE clause"), w)
           | Some [] =>
               (Throw (Error "Delete operation requires a WHERE clause for safety"),
                w)
           | Some (kv :: o) =>
               send (delete_stmt
                       (QB.where_ (Fields (kv :: o)) VUndefined
                          (Model.query cls
                             (Model.opt options Model.do_client))))
                    affected w
           end).
Proof.
  split; [|split].
  - intros. rewrite delete_send.
    now rewrite (proj1 (shape_keeps_where calls _)).
  - intros qb. apply delete_send.
  - intros cls options. unfold Model.delete.
    destruct (Model.opt options Model.do_where) as [[|kv o]|];
      try reflexivity.
    rewrite delete_send.
    pose proof (where_fields_length (kv :: o) VUndefined
                  (Model.query cls (Model.opt options Model.do_client))) as L.
    destruct (QB.whereConditions _); [discriminate L | reflexivity].
Qed.

(** C3, the claim as stated fails: [options.where] is present (an empty
    object) and [Model.delete] still fails instead of returning a
    count. *)
Lemma model_delete_empty_where_fails :
  let w := Fixtures.world (Fixtures.answers []) in
  Model.opt (Some {| Model.do_where := Some []; Model.do_client := None |})
            Model.do_where <> None
  /\ Model.delete Fixtures.User
       (Some {| Model.do_where := Some []; Model.do_client := None |}) w
     = (Throw (Error "Delete operation requires a WHERE clause for safety"), w).
Proof. cbv zeta. split; [discriminate | reflexivity]. Qed.

(** ** Record mapper *)

Lemma send_world {A} (s : Stmt) (f : QueryResult -> A) (w : World) :
  Database.reachable (on_client s) w = true ->
  history (snd (send s f w)) = (history w ++ [s])%list
  /\ uuids (snd (send s f w)) = uuids w
  /\ released (snd (send s f w)) = released w
  /\ fst (send s f w) = match pg w (history w) s with
                        | Ok r => Ok (f r)
                        | Throw e => Throw e
                        end.
Proof. unfold send. intros ->. now cbn. Qed.

Lemma insert_send (qb : QB.QueryBuilder) (data : obj) (w : World) :
  QB.insert qb data w
  = if generates qb data then
      send (insert_stmt qb
              (set data (QB.primaryKey qb) (VStr (uuid_source w (uuids w)))))
           (fun r => hd_error (rows r))
           (snd (Database.randomUUID w))
    else send (insert_stmt qb data) (fun r => hd_error (rows r)) w.
Proof.
  unfold QB.insert, QB.insert_data, generates.
  assert (Hrun : forall insertData w',
    (r <- Database.query (QB.insert_sql (QB.tableName qb) insertData)
                         (values insertData) (QB.client qb) ;;
     ret (hd_error (rows r))) w'
    = send (insert_stmt qb insertData) (fun r => hd_error (rows r)) w').
  { intros insertData w'. unfold bind at 1. rewrite query_send.
    fold (insert_stmt qb insertData). unfold send.
    destruct (Database.reachable _ w'); [|reflexivity].
    now destruct (pg w' _ _). }
  destruct (QB.primaryKeyType qb).
  - unfold bind at 1. cbn [ret]. apply Hrun.
  - destruct (negb (truthy (get data (QB.primaryKey qb)))).
    + unfold bind at 1 2. cbn [Database.randomUUID ret]. apply Hrun.
    + unfold bind at 1. cbn [ret]. apply Hrun.
Qed.

Lemma prefix_append (p s : string) : String.prefix p (p ++ s) = true.
Proof.
  induction p as [|a p IH]; [now destruct s|].
  cbn [append String.prefix]. now destruct (ascii_dec a a).
Qed.

Lemma update_sql_is_an_update (qb : QB.QueryBuilder) (data : obj) :
  String.prefix "UPDATE " (QB.update_sql qb data) = true.
Proof.
  unfold QB.update_sql, QB.add_clause.
  destruct (QB.update_where qb data =? "");
    rewrite ?append_assoc; apply prefix_append.
Qed.

Lemma postgres_fixture_like (row : obj) :
  postgres_like (Fixtures.world (Fixtures.postgres row)).
Proof.
  intros sent s r H Hp Hm. cbn in H. injection H as <-.
  cbn [rows]. now rewrite Hp, Hm.
Qed.

(** What [Model.update] does: the gate on [options.where], then the
    UPDATE of the builder that holds those conditions, every row of the
    answer returned as an instance. *)
Lemma model_update_send
    (cls : Model.ModelClass) (data : obj)
    (options : option Model.UpdateOptions) (w : World) :
  Model.update cls data options w
  = match Model.opt options Model.uo_where with
    | None => (Throw (Error "Update requires a WHERE clause"), w)
    | Some cond =>
        send (update_stmt
                (QB.where_ (Fields cond) VUndefined
                   (Model.query cls (Model.opt options Model.uo_client)))
                data)
             (fun r => map (fun row => assign (Model.fresh cls) row) (rows r))
             w
    end.
Proof.
  unfold Model.update.
  destruct (Model.opt options Model.uo_where) as [cond|]; [|reflexivity].
  apply update_materialized_send.
Qed.

(** C4. [Model.update] fails with the WHERE-required error, sending
    nothing, when [options.where] is absent.  When it is supplied, one
    UPDATE is sent, with one condition per entry of the field map and
    the SET values followed by the values of the field map as
    parameters.  That statement carries no RETURNING clause (the INSERT
    of [create] ends in RETURNING * ), so a driver that answers as
    PostgreSQL does returns no row for it: [Model.update] returns the
    empty list where the updated records are expected. *)
Theorem model_update_returns_no_record
    (cls : Model.ModelClass) (data cond : obj) (c : option PoolClient)
    (w : World) :
  let builder := QB.where_ (Fields cond) VUndefined (Model.query cls c) in
  let options :=
    Some {| Model.uo_where := Some cond; Model.uo_client := c |} in
  postgres_like w ->
  mentions_returning (QB.update_sql builder data) = false ->
  Database.reachable c w = true ->
  Model.update cls data
    (Some {| Model.uo_where := None; Model.uo_client := c |}) w
  = (Throw (Error "Update requires a WHERE clause"), w)
  /\ history (snd (Model.update cls data options w))
     = (history w
        ++ [ {| text := QB.update_sql builder data;
                params :=
                  values data
                  ++ flat_map (fun kv => appended_values (snd kv)) cond;
                on_client := c |} ])%list
  /\ length (QB.whereConditions builder) = length cond
  /\ (forall instances,
         fst (Model.update cls data options w) = Ok instances ->
         instances = []).
Proof.
  intros builder options Hpg Hret Hreach.
  split; [reflexivity|].
  assert (Hc : QB.client builder = c).
  { destruct (where_fields_keeps cond VUndefined (Model.query cls c))
      as (_ & _ & _ & _ & H). exact H. }
  assert (Hs : update_stmt builder data
               = {| text := QB.update_sql builder data;
                    params :=
                      (values data
                       ++ flat_map (fun kv => appended_values (snd kv))
                            cond)%list;
                    on_client := c |}).
  { unfold update_stmt. rewrite Hc. f_equal. subst builder.
    now rewrite where_fields_params. }
  subst options. rewrite model_update_send.
  cbn [Model.opt Model.uo_where Model.uo_client]. fold builder.
  split; [|split].
  - rewrite <- Hs. apply send_world. cbn [update_stmt on_client].
    now rewrite Hc.
  - subst builder. now rewrite where_fields_length.
  - intros instances. unfold send. cbn [update_stmt on_client].
    rewrite Hc, Hreach.
    fold (update_stmt builder data).
    destruct (pg w (history w) (update_stmt builder data)) as [r|e] eqn:Hr;
      [|discriminate].
    cbn [fst]. intros [= <-].
    rewrite (Hpg _ _ _ Hr); [reflexivity | | exact Hret].
    cbn [update_stmt text]. now rewrite update_sql_is_an_update.
Qed.

Lemma model_update_returns_no_record_witness :
  let row := [("id", VNum 1); ("name", VStr "Jane")] in
  let w := Fixtures.world (Fixtures.postgres row) in
  let data := [("name", VStr "Jane")] in
  let options :=
    Some {| Model.uo_where := Some [("id", VNum 1)];
            Model.uo_client := None |} in
  (map text (history (snd (Model.update Fixtures.User data options w)))
   = ["UPDATE users SET name = $1 WHERE id = $2"]
   /\ map params (history (snd (Model.update Fixtures.User data options w)))
      = [[VStr "Jane"; VNum 1]])
  /\ (forall instances,
         fst (Model.update Fixtures.User data options w) = Ok instances ->
         instances = [])
  /\ fst (Model.update Fixtures.User data options w) = Ok []
  /\ fst (Model.create Fixtures.User data None w) = Ok row.
Proof.
  cbv zeta.
  destruct (model_update_returns_no_record Fixtures.User
              [("name", VStr "Jane")] [("id", VNum 1)] None
              (Fixtures.world
                 (Fixtures.postgres [("id", VNum 1); ("name", VStr "Jane")]))
              (postgres_fixture_like _) eq_refl eq_refl)
    as (_ & Hsent & _ & Hnone).
  split; [split; [exact (f_equal (map text) Hsent)
                 | exact (f_equal (map params) Hsent)]|].
  split; [exact Hnone|]. split; reflexivity.
Defined.

(** C5. An empty object as [where] passes the mapper's update gate: no
    condition is added, and the statement sent is an UPDATE of the table
    with no WHERE clause, its parameters the SET values alone.  The same
    empty object given to [Model.delete] fails at the builder's gate. *)
Theorem empty_where_defeats_update_gate
    (cls : Model.ModelClass) (data : obj) (c : option PoolClient) (w : World) :
  QB.whereConditions
    (QB.where_ (Fields []) VUndefined (Model.query cls c)) = []
  /\ Model.update cls data
       (Some {| Model.uo_where := Some []; Model.uo_client := c |}) w
     = send {| text := "UPDATE " ++ Model.getTableName cls ++ " SET "
                       ++ join ", " (QB.set_parts (keys data) 0);
               params := values data;
               on_client := c |}
            (fun r => map (fun row => assign (Model.fresh cls) row) (rows r))
            w
  /\ Model.delete cls
       (Some {| Model.do_where := Some []; Model.do_client := c |}) w
     = (Throw (Error "Delete operation requires a WHERE clause for safety"), w).
Proof.
  split; [reflexivity | split; [|reflexivity]].
  unfold Model.update. cbn [Model.opt Model.uo_where Model.uo_client].
  rewrite update_materialized_send.
  unfold update_stmt. cbn. now rewrite app_nil_r.
Qed.

Lemma findAll_builder_clauses
    (cls : Model.ModelClass) (wh : option obj)
    (ob : option (OrderBy + list OrderBy)) (lim off : option number)
    (c : option PoolClient) :
  QB.limitClause (Model.findAll_builder cls (select_options wh ob lim off c))
  = match lim with
    | Some x => if number_truthy x then "LIMIT " ++ show_number x else ""
    | None => ""
    end
  /\ QB.offsetClause
       (Model.findAll_builder cls (select_options wh ob lim off c))
     = match off with
       | Some x => if number_truthy x then "OFFSET " ++ show_number x else ""
       | None => ""
       end.
Proof.
  unfold Model.findAll_builder, select_options.
  cbn [Model.opt Model.so_where Model.so_orderBy Model.so_limit
       Model.so_offset Model.so_client].
  assert (Hbase :
    QB.limitClause
      (match wh with
       | Some o => QB.where_ (Fields o) VUndefined (Model.query cls c)
       | None => Model.query cls c
       end) = ""
    /\ QB.offsetClause
         (match wh with
          | Some o => QB.where_ (Fields o) VUndefined (Model.query cls c)
          | None => Model.query cls c
          end) = "").
  { destruct wh as [o|]; [|now split].
    destruct (where_fields_keeps o VUndefined (Model.query cls c))
      as (_ & _ & H1 & H2 & _). cbn zeta in *. now rewrite H1, H2. }
  destruct Hbase as [H1 H2].
  destruct ob as [[o1|os]|], lim as [x|], off as [y|];
    try destruct (number_truthy x); try destruct (number_truthy y);
    cbn [QB.limit QB.offset QB.orderBy QB.orderByMultiple QB.with_orderBy
         QB.limitClause QB.offsetClause]; split; try reflexivity;
    assumption.
Qed.

Lemma findAll_send (cls : Model.ModelClass)
    (options : option Model.SelectOptions) (w : World) :
  Model.findAll cls options w
  = send (select_stmt ["*"] (Model.findAll_builder cls options))
         (fun r => map (fun row => assign (Model.fresh cls) row) (rows r)) w.
Proof.
  unfold Model.findAll, bind at 1. rewrite select_send. unfold send, ret.
  destruct (Database.reachable _ w); [|reflexivity].
  now destruct (pg w _ _).
Qed.

(** C10, as amended.  [Model.findAll] sends the SELECT of the builder
    its options shape, and tests [limit] and [offset] for truthiness: a
    falsy value (0 or NaN) is the same call as no value at all, so no
    LIMIT or OFFSET clause is rendered, whereas the builder's own
    [limit(0)] and [offset(0)] render [LIMIT 0] and [OFFSET 0]; a truthy
    value is handed to the builder as it is. *)
Theorem findAll_forwards_truthy_limit_and_offset
    (cls : Model.ModelClass) (wh : option obj)
    (ob : option (OrderBy + list OrderBy)) (lim off : option number)
    (c : option PoolClient) (x : number) (qb : QB.QueryBuilder) (w : World) :
  Model.findAll cls (select_options wh ob lim off c) w
  = send (select_stmt ["*"]
            (Model.findAll_builder cls (select_options wh ob lim off c)))
         (fun r => map (fun row => assign (Model.fresh cls) row) (rows r)) w
  /\ (number_truthy x = false ->
      Model.findAll_builder cls (select_options wh ob (Some x) off c)
      = Model.findAll_builder cls (select_options wh ob None off c)
      /\ Model.findAll_builder cls (select_options wh ob lim (Some x) c)
         = Model.findAll_builder cls (select_options wh ob lim None c)
      /\ QB.limitClause
           (Model.findAll_builder cls (select_options wh ob (Some x) off c))
         = ""
      /\ QB.offsetClause
           (Model.findAll_builder cls (select_options wh ob lim (Some x) c))
         = "")
  /\ (number_truthy x = true ->
      QB.limitClause
        (Model.findAll_builder cls (select_options wh ob (Some x) off c))
      = QB.limitClause (QB.limit x qb)
      /\ QB.offsetClause
           (Model.findAll_builder cls (select_options wh ob lim (Some x) c))
         = QB.offsetClause (QB.offset x qb))
  /\ QB.limitClause (QB.limit 0 qb) = "LIMIT 0"
  /\ QB.offsetClause (QB.offset 0 qb) = "OFFSET 0"
  /\ history
       (snd (Model.findAll Fixtures.User
               (select_options None None (Some (Int 0)) (Some (Int 0)) None)
               (Fixtures.world (Fixtures.answers []))))
     = [ {| text := "SELECT * FROM users"; params := [];
            on_client := None |} ]
  /\ QB.select_sql ["*"] (QB.offset 0 (QB.limit 0 Fixtures.users))
     = "SELECT * FROM users LIMIT 0 OFFSET 0".
Proof.
  split; [apply findAll_send|].
  split; [|split; [|repeat split]].
  - intros Hx.
    destruct (findAll_builder_clauses cls wh ob (Some x) off c) as [H1 _].
    destruct (findAll_builder_clauses cls wh ob lim (Some x) c) as [_ H2].
    rewrite Hx in H1, H2.
    split; [|split; [|split; assumption]];
      unfold Model.findAll_builder, select_options;
      cbn [Model.opt Model.so_where Model.so_orderBy Model.so_limit
           Model.so_offset Model.so_client];
      now rewrite Hx.
  - intros Hx.
    destruct (findAll_builder_clauses cls wh ob (Some x) off c) as [H1 _].
    destruct (findAll_builder_clauses cls wh ob lim (Some x) c) as [_ H2].
    rewrite Hx in H1, H2. now split.
Qed.

Lemma findAll_forwards_truthy_limit_and_offset_witness :
  (QB.limitClause
     (Model.findAll_builder Fixtures.User
        (select_options None None (Some (Int 10)) (Some (Int 20)) None))
   = "LIMIT 10"
   /\ QB.offsetClause
        (Model.findAll_builder Fixtures.User
           (select_options None None (Some (Int 10)) (Some (Int 10)) None))
      = "OFFSET 10")
  /\ QB.limitClause
       (Model.findAll_builder Fixtures.User
          (select_options None None (Some NaN) None None)) = "".
Proof.
  split.
  - exact (proj1 (proj2 (proj2
      (findAll_forwards_truthy_limit_and_offset Fixtures.User None None
         (Some (Int 10)) (Some (Int 20)) None (Int 10) Fixtures.users
         (Fixtures.world (Fixtures.answers []))))) eq_refl).
  - exact (proj1 (proj2 (proj2 (proj1 (proj2
      (findAll_forwards_truthy_limit_and_offset Fixtures.User None None
         None None None NaN Fixtures.users
         (Fixtures.world (Fixtures.answers [])))) eq_refl)))).
Defined.

(** C10, the claim as stated fails: a limit and an offset of NaN are not
    zero, yet [findAll] forwards neither and renders no LIMIT and no
    OFFSET clause, while the builder's own [limit(NaN)] renders one. *)
Lemma findAll_drops_NaN_limit_and_offset :
  NaN <> Int 0
  /\ history
       (snd (Model.findAll Fixtures.User
               (select_options None None (Some NaN) (Some NaN) None)
               (Fixtures.world (Fixtures.answers []))))
     = [ {| text := "SELECT * FROM users"; params := [];
            on_client := None |} ]
  /\ QB.select_sql ["*"] (QB.offset NaN (QB.limit NaN Fixtures.users))
     = "SELECT * FROM users LIMIT NaN OFFSET NaN".
Proof. split; [discriminate | split; reflexivity]. Qed.

(** ** Primary keys *)

(** C8, as amended.  Under the [uuid] strategy [insert] tests the
    primary-key field of the data for truthiness.  When it is falsy (absent,
    or undefined, null, 0, the empty string, false) one identifier is
    drawn from [randomUUID] and put under the primary key: appended as a
    new column when the field is absent, in place of the falsy value
    otherwise.  When it is truthy the data are inserted as given and no
    identifier is drawn.  Under the [serial] strategy the data are always
    inserted as given. *)
Theorem insert_generates_uuid_for_falsy_key
    (qb : QB.QueryBuilder) (data : obj) (w : World) :
  Database.reachable (QB.client qb) w = true ->
  let pk := QB.primaryKey qb in
  let id := VStr (uuid_source w (uuids w)) in
  let w' := snd (QB.insert qb data w) in
  match QB.primaryKeyType qb with
  | uuid =>
      if truthy (get data pk) then
        history w' = (history w ++ [insert_stmt qb data])%list
        /\ uuids w' = uuids w
      else
        history w' = (history w ++ [insert_stmt qb (set data pk id)])%list
        /\ uuids w' = S (uuids w)
        /\ get (set data pk id) pk = id
        /\ (has data pk = false ->
            keys (set data pk id) = (keys data ++ [pk])%list
            /\ values (set data pk id) = (values data ++ [id])%list)
        /\ (has data pk = true -> keys (set data pk id) = keys data)
  | serial =>
      history w' = (history w ++ [insert_stmt qb data])%list
      /\ uuids w' = uuids w
  end.
Proof.
  intros Hreach pk id w'. subst w'. rewrite insert_send. unfold generates.
  fold pk. destruct (QB.primaryKeyType qb).
  - destruct (send_world (insert_stmt qb data)
                (fun r => hd_error (rows r)) w Hreach) as (H1 & H2 & _).
    now split.
  - destruct (truthy (get data pk)); cbn [negb].
    + destruct (send_world (insert_stmt qb data)
                  (fun r => hd_error (rows r)) w Hreach) as (H1 & H2 & _).
      now split.
    + destruct (send_world (insert_stmt qb (set data pk id))
                  (fun r => hd_error (rows r))
                  (snd (Database.randomUUID w))) as (H1 & H2 & _).
      { cbn [insert_stmt on_client]. unfold Database.reachable in *.
        destruct (QB.client qb); [reflexivity | exact Hreach]. }
      fold id. rewrite H1, H2. cbn [Database.randomUUID snd history uuids].
      repeat split.
      * apply get_set_same.
      * unfold keys. rewrite set_fresh, map_app by assumption. reflexivity.
      * unfold values. rewrite set_fresh, map_app by assumption. reflexivity.
      * apply set_keeps_keys.
Qed.

Lemma insert_generates_uuid_for_falsy_key_witness :
  let w := Fixtures.world (Fixtures.answers []) in
  let qb := Model.query Fixtures.Product None in
  let data := [("name", VStr "Laptop"); ("price", VNum 999)] in
  history (snd (QB.insert qb data w))
  = [ insert_stmt qb
        (data ++ [("id", VStr "3f2b8c1e-5d4a-4c6b-9e7f-0a1b2c3d4e5f")])%list ]
  /\ uuids (snd (QB.insert qb data w)) = 1.
Proof.
  cbv zeta.
  pose proof (insert_generates_uuid_for_falsy_key
                (Model.query Fixtures.Product None)
                [("name", VStr "Laptop"); ("price", VNum 999)]
                (Fixtures.world (Fixtures.answers [])) eq_refl) as H.
  cbv zeta in H. cbn [QB.primaryKeyType Model.query QB.new] in H.
  destruct H as (H1 & H2 & _). split; [exact H1 | exact H2].
Defined.

(** C8, the claim as stated fails: the caller supplies an explicit
    primary-key value (the empty string) and it is replaced by a
    generated identifier. *)
Lemma insert_replaces_explicit_falsy_key :
  let w := Fixtures.world (Fixtures.answers []) in
  let qb := Model.query Fixtures.Product None in
  let data := [("id", VStr ""); ("name", VStr "Laptop")] in
  has data "id" = true
  /\ get data "id" = VStr ""
  /\ map params (history (snd (QB.insert qb data w)))
     = [[VStr "3f2b8c1e-5d4a-4c6b-9e7f-0a1b2c3d4e5f"; VStr "Laptop"]]
  /\ uuids (snd (QB.insert qb data w)) = 1.
Proof. cbv zeta. repeat split. Qed.

(** ** Saving an instance *)

Lemma own_data_fold (pk : string) (this l : obj) :
  (forall kv, In kv l -> get this (fst kv) = snd kv) ->
  NoDup (keys l) ->
  forall acc,
    (forall kv, In kv l -> has acc (fst kv) = false) ->
    fold_left
      (fun data kv =>
         let key := fst kv in
         if negb (key =? pk) && negb (is_function (get this key))
         then set data key (get this key)
         else data) l acc
    = (acc ++ data_fields pk l)%list.
Proof.
  unfold data_fields.
  induction l as [|[k0 v0] l IH]; intros Hget Hnd acc Hacc.
  - cbn. now rewrite app_nil_r.
  - cbn [fold_left filter fst snd]. cbn zeta.
    pose proof (Hget (k0, v0) (or_introl eq_refl)) as Hk.
    cbn [fst snd] in Hk. rewrite Hk.
    cbn [keys map fst] in Hnd. apply NoDup_cons_iff in Hnd as [Hnotin Hnd'].
    assert (Hget' : forall kv', In kv' l -> get this (fst kv') = snd kv')
      by (intros; apply Hget; now right).
    destruct (negb (k0 =? pk) && negb (is_function v0)).
    + rewrite (set_fresh acc k0 v0) by (apply (Hacc (k0, v0)); now left).
      rewrite IH; [now rewrite <- app_assoc | assumption | assumption |].
      intros kv' Hin. rewrite has_app, (Hacc kv') by now right.
      cbn [has orb]. rewrite orb_false_r.
      destruct (k0 =? fst kv') eqn:E; [|reflexivity].
      apply String.eqb_eq in E. exfalso. apply Hnotin. rewrite E.
      unfold keys. now apply in_map.
    + apply IH; try assumption. intros kv' Hin. apply Hacc. now right.
Qed.

Lemma hasOwnProperty_plain (cls : Model.ModelClass) (this : obj)
    (key : string) :
  has this "hasOwnProperty" = false ->
  Model.hasOwnProperty cls this key = Ok (has this key).
Proof. unfold Model.hasOwnProperty. now intros ->. Qed.

Lemma hasOwnProperty_shadowed (cls : Model.ModelClass) (this : obj)
    (key : string) :
  has this "hasOwnProperty" = true ->
  is_function (get this "hasOwnProperty") = false ->
  Model.hasOwnProperty cls this key
  = Throw (TypeError "this.hasOwnProperty is not a function").
Proof.
  unfold Model.hasOwnProperty. intros -> Hf.
  destruct (get this "hasOwnProperty"); try reflexivity. discriminate Hf.
Qed.

Lemma own_data_loop_fold (cls : Model.ModelClass) (pk : string)
    (this l : obj) :
  has this "hasOwnProperty" = false ->
  (forall kv, In kv l -> has this (fst kv) = true) ->
  forall acc,
    Model.own_data_loop cls pk this l acc
    = Ok (fold_left
            (fun data kv =>
               let key := fst kv in
               if negb (key =? pk) && negb (is_function (get this key))
               then set data key (get this key)
               else data) l acc).
Proof.
  intros Hplain. induction l as [|kv l IH]; intros Hin acc; [reflexivity|].
  cbn [Model.own_data_loop fold_left]. cbn zeta.
  rewrite hasOwnProperty_plain, (Hin kv (or_introl eq_refl)) by assumption.
  cbn [andb].
  destruct (negb (fst kv =? pk) && negb (is_function (get this (fst kv))));
    apply IH; intros kv' H; apply Hin; now right.
Qed.

Lemma own_entries (this : obj) :
  forall kv, In kv this -> has this (fst kv) = true.
Proof.
  intros kv Hin. apply has_In. unfold keys. now apply in_map.
Qed.

Lemma own_data_filter (cls : Model.ModelClass) (pk : string) (this : obj) :
  NoDup (keys this) ->
  has this "hasOwnProperty" = false ->
  Model.own_data cls pk this = Ok (data_fields pk this).
Proof.
  intros Hnd Hplain. unfold Model.own_data.
  rewrite own_data_loop_fold by auto using own_entries.
  rewrite (own_data_fold pk this this); auto using get_in_nodup.
Qed.

Lemma own_data_throws (cls : Model.ModelClass) (pk : string) (this : obj) :
  has this "hasOwnProperty" = true ->
  is_function (get this "hasOwnProperty") = false ->
  Model.own_data cls pk this
  = Throw (TypeError "this.hasOwnProperty is not a function").
Proof.
  intros Hh Hf. unfold Model.own_data.
  destruct this as [|kv rest] eqn:E; [discriminate Hh|].
  rewrite <- E in Hh, Hf. rewrite <- E at 1.
  cbn [Model.own_data_loop]. cbn zeta.
  now rewrite hasOwnProperty_shadowed.
Qed.






(** ** Transactions *)

Lemma commit_active (s : Transaction.Transaction * World) :
  Transaction.committed (fst s) = false ->
  Transaction.rolledBack (fst s) = false ->
  Transaction.commit s
  = match pg (snd s) (history (snd s))
             (control (Transaction.client (fst s)) "COMMIT") with
    | Ok _ =>
        (Ok tt,
         ({| Transaction.client := Transaction.client (fst s);
             Transaction.committed := true;
             Transaction.rolledBack := false |},
          snd (Database.release (Transaction.client (fst s))
                 (Database.record_stmt
                    (control (Transaction.client (fst s)) "COMMIT") (snd s)))))
    | Throw e =>
        (Throw e,
         (fst s,
          Database.record_stmt
            (control (Transaction.client (fst s)) "COMMIT") (snd s)))
    end.
Proof.
  destruct s as [trx w]. cbn [fst snd]. intros Hc Hr.
  unfold Transaction.commit. cbn [fst]. rewrite Hc, Hr.
  unfold bind, Transaction.client_query, Transaction.lift,
    Database.executor_query. cbn [fst snd]. fold (control (Transaction.client trx) "COMMIT").
  destruct (pg w (history w) _); [|reflexivity].
  cbn. now rewrite Hr.
Qed.

Lemma rollback_active (s : Transaction.Transaction * World) :
  Transaction.committed (fst s) = false ->
  Transaction.rolledBack (fst s) = false ->
  Transaction.rollback s
  = match pg (snd s) (history (snd s))
             (control (Transaction.client (fst s)) "ROLLBACK") with
    | Ok _ =>
        (Ok tt,
         ({| Transaction.client := Transaction.client (fst s);
             Transaction.committed := false;
             Transaction.rolledBack := true |},
          snd (Database.release (Transaction.client (fst s))
                 (Database.record_stmt
                    (control (Transaction.client (fst s)) "ROLLBACK") (snd s)))))
    | Throw e =>
        (Throw e,
         (fst s,
          Database.record_stmt
            (control (Transaction.client (fst s)) "ROLLBACK") (snd s)))
    end.
Proof.
  destruct s as [trx w]. cbn [fst snd]. intros Hc Hr.
  unfold Transaction.rollback. cbn [fst]. rewrite Hc, Hr.
  unfold bind, Transaction.client_query, Transaction.lift,
    Database.executor_query. cbn [fst snd]. fold (control (Transaction.client trx) "ROLLBACK").
  destruct (pg w (history w) _); [|reflexivity].
  cbn. now rewrite Hc.
Qed.

(** C7. After a successful [commit], a second [commit] and a [rollback]
    both fail with the already-committed error; after a successful
    [rollback], another [rollback] succeeds and changes nothing: no
    statement is sent and the connection is not released again. *)
Theorem terminal_transitions_are_one_shot
    (s s' : Transaction.Transaction * World) :
  (Transaction.commit s = (Ok tt, s') ->
   Transaction.commit s'
   = (Throw (Error "Transaction already committed"), s')
   /\ Transaction.rollback s'
      = (Throw (Error "Transaction already committed"), s'))
  /\ (Transaction.rollback s = (Ok tt, s') ->
      Transaction.rollback s' = (Ok tt, s')).
Proof.
  split.
  - intros H.
    assert (Hc : Transaction.committed (fst s') = true).
    { destruct (Transaction.committed (fst s)) eqn:Ec.
      { unfold Transaction.commit in H. rewrite Ec in H. discriminate. }
      destruct (Transaction.rolledBack (fst s)) eqn:Er.
      { unfold Transaction.commit in H. rewrite Ec, Er in H. discriminate. }
      rewrite commit_active in H by assumption.
      destruct (pg _ _ _); inversion H. reflexivity. }
    unfold Transaction.commit, Transaction.rollback. rewrite Hc. now split.
  - intros H.
    destruct (Transaction.committed (fst s)) eqn:Ec.
    { unfold Transaction.rollback in H. rewrite Ec in H. discriminate. }
    destruct (Transaction.rolledBack (fst s)) eqn:Er.
    { unfold Transaction.rollback in H. rewrite Ec, Er in H.
      inversion H. subst s'. unfold Transaction.rollback.
      now rewrite Ec, Er. }
    rewrite rollback_active in H by assumption.
    destruct (pg _ _ _); inversion H.
    unfold Transaction.rollback. reflexivity.
Qed.

Lemma terminal_transitions_are_one_shot_witness :
  let s := (Transaction.new 7, Fixtures.world (Fixtures.answers [])) in
  let committed := snd (Transaction.commit s) in
  let rolled := snd (Transaction.rollback s) in
  (Transaction.commit committed
   = (Throw (Error "Transaction already committed"), committed)
   /\ Transaction.rollback committed
      = (Throw (Error "Transaction already committed"), committed))
  /\ Transaction.rollback rolled = (Ok tt, rolled).
Proof.
  cbv zeta. split.
  - exact (proj1 (terminal_transitions_are_one_shot
                    (Transaction.new 7, Fixtures.world (Fixtures.answers []))
                    _) eq_refl).
  - exact (proj2 (terminal_transitions_are_one_shot
                    (Transaction.new 7, Fixtures.world (Fixtures.answers []))
                    _) eq_refl).
Defined.

(** C6, as amended.  Once a connection is acquired and BEGIN is accepted,
    the unit of work runs on the new transaction.  If the unit leaves the
    transaction active and does not release the connection itself, then:
    when it returns normally and COMMIT is accepted, the helper sends
    COMMIT and returns the unit's result; when it fails and ROLLBACK is
    accepted, the helper sends ROLLBACK and fails with the unit's error;
    in both outcomes the connection is released exactly once. *)
Theorem transaction_commits_or_rolls_back
    {T : Type} (callback : Transaction.TM T) (w w1 w2 : World)
    (c : PoolClient) (r : result T) :
  Database.getClient w = (Ok c, w1) ->
  accepted (control c "BEGIN") w1 ->
  callback (Transaction.new c, Database.record_stmt (control c "BEGIN") w1)
  = (r, (Transaction.new c, w2)) ->
  released w2 = released w1 ->
  match r with
  | Ok a =>
      accepted (control c "COMMIT") w2 ->
      let w3 := snd (Transaction.transaction callback w) in
      fst (Transaction.transaction callback w) = Ok a
      /\ history w3 = (history w2 ++ [control c "COMMIT"])%list
      /\ released w3 = (released w1 ++ [c])%list
  | Throw e =>
      accepted (control c "ROLLBACK") w2 ->
      let w3 := snd (Transaction.transaction callback w) in
      fst (Transaction.transaction callback w) = Throw e
      /\ history w3 = (history w2 ++ [control c "ROLLBACK"])%list
      /\ released w3 = (released w1 ++ [c])%list
  end.
Proof.
  intros Hget [b Hbegin] Hunit Hrel.
  assert (Hrun : Transaction.transaction callback w
                 = (let (r', s) :=
                      Transaction.transaction_body callback
                        (Transaction.new c, w1) in (r', snd s))).
  { unfold Transaction.transaction, bind. now rewrite Hget. }
  assert (Hstart : forall (k : unit -> Transaction.TM T),
            bind Transaction.begin k (Transaction.new c, w1)
            = k tt (Transaction.new c,
                    Database.record_stmt (control c "BEGIN") w1)).
  { intros k. unfold bind at 1, Transaction.begin. unfold bind at 1.
    unfold Transaction.client_query, Transaction.lift,
      Database.executor_query. cbn [fst snd Transaction.new Transaction.client].
    fold (control c "BEGIN"). now rewrite Hbegin. }
  destruct r as [a|e].
  - intros [k Hcommit].
    assert (Hres : Transaction.transaction callback w
                   = (Ok a, snd (Database.release c
                                   (Database.record_stmt
                                      (control c "COMMIT") w2)))).
    { rewrite Hrun. unfold Transaction.transaction_body, try_catch.
      rewrite Hstart. unfold bind at 1. rewrite Hunit. unfold bind at 1.
      rewrite commit_active by reflexivity.
      cbn [fst snd Transaction.new Transaction.client].
      rewrite Hcommit. reflexivity. }
    rewrite Hres. cbn. now rewrite Hrel.
  - intros [k Hrollback].
    assert (Hres : Transaction.transaction callback w
                   = (Throw e, snd (Database.release c
                                      (Database.record_stmt
                                         (control c "ROLLBACK") w2)))).
    { rewrite Hrun. unfold Transaction.transaction_body, try_catch.
      rewrite Hstart. unfold bind at 1. rewrite Hunit. unfold bind at 1.
      rewrite rollback_active by reflexivity.
      cbn [fst snd Transaction.new Transaction.client].
      rewrite Hrollback. reflexivity. }
    rewrite Hres. cbn. now rewrite Hrel.
Qed.

Lemma transaction_commits_or_rolls_back_witness :
  let w := Fixtures.world (Fixtures.answers [("id", VNum 1)]) in
  let unit_of_work :=
    Transaction.lift
      (Model.create Fixtures.User [("name", VStr "Ann")]
         (Some {| Model.qo_client := Some 7 |})) in
  let failing_unit : Transaction.TM nat := throw (Error "boom") in
  (fst (Transaction.transaction unit_of_work w) = Ok [("id", VNum 1)]
   /\ released (snd (Transaction.transaction unit_of_work w)) = [7])
  /\ (fst (Transaction.transaction failing_unit w) = Throw (Error "boom")
      /\ map text (history (snd (Transaction.transaction failing_unit w)))
         = ["BEGIN"; "ROLLBACK"]
      /\ released (snd (Transaction.transaction failing_unit w)) = [7]).
Proof.
  cbv zeta. split.
  - pose proof (transaction_commits_or_rolls_back
                  (Transaction.lift
                     (Model.create Fixtures.User [("name", VStr "Ann")]
                        (Some {| Model.qo_client := Some 7 |})))
                  (Fixtures.world (Fixtures.answers [("id", VNum 1)]))
                  _ _ 7 _ eq_refl
                  (ex_intro _ _ eq_refl) eq_refl eq_refl) as H.
    cbv beta iota zeta in H.
    destruct (H (ex_intro _ _ eq_refl)) as (H1 & _ & H3).
    split; [exact H1 | exact H3].
  - pose proof (transaction_commits_or_rolls_back
                  (throw (Error "boom") : Transaction.TM nat)
                  (Fixtures.world (Fixtures.answers [("id", VNum 1)]))
                  _ _ 7 _ eq_refl
                  (ex_intro _ _ eq_refl) eq_refl eq_refl) as H.
    cbv beta iota zeta in H.
    destruct (H (ex_intro _ _ eq_refl)) as (H1 & H2 & H3).
    split; [exact H1 | split; [|exact H3]].
    rewrite H2. reflexivity.
Defined.

(** C6, the claim as stated fails.  A unit of work that commits the
    transaction itself and returns normally makes the helper fail with
    the already-committed error instead of returning the unit's result;
    and when the connection is lost after BEGIN and the unit fails, the
    helper fails with the error of ROLLBACK, not with the unit's, and
    the connection is never released. *)
Lemma transaction_helper_depends_on_unit_and_connection :
  let committing : Transaction.TM nat :=
    _ <- Transaction.commit ;; ret 42 in
  let failing : Transaction.TM nat := throw (Error "boom") in
  let w := Fixtures.world (Fixtures.answers []) in
  let lost := Fixtures.world Fixtures.lost_after_first in
  (fst (committing (Transaction.new 7,
                    Database.record_stmt (control 7 "BEGIN")
                      (snd (Database.getClient w)))) = Ok 42
   /\ fst (Transaction.transaction committing w)
      = Throw (Error "Transaction already committed"))
  /\ (fst (Transaction.transaction failing lost)
      = Throw (Error "Connection terminated unexpectedly")
      /\ map text (history (snd (Transaction.transaction failing lost)))
         = ["BEGIN"; "ROLLBACK"]
      /\ released (snd (Transaction.transaction failing lost)) = []).
Proof. cbv zeta. repeat split. Qed.

(* ================================================================== *)
(** * Further properties of the code *)

(** ** Field maps given to [where] *)

Lemma where_entry_appends (qb : QB.QueryBuilder) (kv : string * value) :
  exists cond,
    QB.whereConditions (QB.where_entry qb kv)
    = (QB.whereConditions qb ++ [cond])%list
    /\ QB.whereParams (QB.where_entry qb kv)
       = (QB.whereParams qb ++ appended_values (snd kv))%list
    /\ QB.paramCounter (QB.where_entry qb kv)
       = QB.paramCounter qb + length (appended_values (snd kv)).
Proof.
  destruct kv as [key val]. unfold QB.where_entry. cbn [snd].
  destruct val;
    try (eexists; cbn [QB.push QB.whereConditions QB.whereParams
                       QB.paramCounter appended_values length];
         repeat split; lia).
  pose proof (proj1 (in_placeholders_spec elems (QB.paramCounter qb))) as Hk.
  destruct (QB.in_placeholders elems (QB.paramCounter qb)) as [ps k'].
  cbn [snd] in Hk. eexists.
  cbn [QB.push QB.whereConditions QB.whereParams QB.paramCounter
       appended_values]. repeat split. exact Hk.
Qed.

(** X1. A field map adds exactly one condition per key, after the
    conditions already recorded; it appends nothing for a null or
    undefined value, the elements of an array value in order, and the
    value itself otherwise; and the placeholder counter advances by the
    number of values appended. *)
Theorem where_fields_appends (o : obj) (v : value) (qb : QB.QueryBuilder) :
  let qb' := QB.where_ (Fields o) v qb in
  (exists added,
      QB.whereConditions qb' = (QB.whereConditions qb ++ added)%list
      /\ length added = length o)
  /\ QB.whereParams qb'
     = (QB.whereParams qb
        ++ flat_map (fun kv => appended_values (snd kv)) o)%list
  /\ QB.paramCounter qb'
     = QB.paramCounter qb
       + length (flat_map (fun kv => appended_values (snd kv)) o).
Proof.
  cbn zeta. cbn [QB.where_]. revert qb.
  induction o as [|kv o IH]; intros qb.
  - cbn. split; [exists []; now rewrite app_nil_r|].
    split; [now rewrite app_nil_r | lia].
  - cbn [fold_left flat_map length].
    destruct (IH (QB.where_entry qb kv)) as ((added & Ha & Hl) & Hp & Hk).
    destruct (where_entry_appends qb kv) as (cond & Hc & Hv & Hn).
    split; [|split].
    + exists (cond :: added). rewrite Ha, Hc, <- app_assoc.
      split; [reflexivity | cbn; now rewrite Hl].
    + now rewrite Hp, Hv, <- app_assoc.
    + rewrite Hk, Hn, length_app. lia.
Qed.

(** ** Order of the builder calls *)

Lemma where_entry_shape (qb : QB.QueryBuilder) (kv : string * value)
    (call : Shaping) :
  QB.where_entry (shape qb call) kv = shape (QB.where_entry qb kv) call.
Proof.
  destruct kv as [key val]. unfold QB.where_entry.
  destruct call, val;
    cbn [shape QB.orderBy QB.orderByMultiple QB.with_orderBy QB.limit
         QB.offset QB.paramCounter];
    try destruct (QB.in_placeholders _ _); reflexivity.
Qed.

(** X2. The calls that are not [where] commute with [where]: whether
    orderBy, orderByMultiple, limit or offset is called before or after a
    [where] call (raw fragment or field map), the builder ends in the
    same state, so every terminal method sends the same statement. *)
Theorem shape_commutes_with_where
    (condition : WhereArg) (v : value) (call : Shaping)
    (qb : QB.QueryBuilder) :
  shape (QB.where_ condition v qb) call = QB.where_ condition v (shape qb call).
Proof.
  destruct condition as [fragment|o].
  - destruct call, v; reflexivity.
  - cbn [QB.where_]. revert qb.
    induction o as [|kv o IH]; intros qb; [reflexivity|].
    cbn [fold_left]. rewrite IH. now rewrite where_entry_shape.
Qed.

(** ** Statements of a chain of field-map and shaping calls *)

Lemma uint_no_dollar (d : Decimal.uint) :
  includes_dollar (NilEmpty.string_of_uint d) = false.
Proof. induction d; cbn; auto. Qed.

Lemma show_Z_clean (n : Z) : clean (show_Z n).
Proof.
  unfold clean, placeholders, show_Z. apply scan_no_dollar.
  destruct (Z.to_int n); cbn; apply uint_no_dollar.
Qed.

Lemma placeholders_join_comma (parts : list string) :
  placeholders (join ", " parts) = placeholders_of parts.
Proof.
  unfold placeholders_of, placeholders.
  induction parts as [|x parts IH]; [reflexivity|].
  destruct parts as [|y parts].
  - cbn. now rewrite app_nil_r.
  - change (join ", " (x :: y :: parts))
      with (x ++ ", " ++ join ", " (y :: parts)).
    cbn [append]. rewrite scan_app_break by reflexivity.
    scan_literal. rewrite IH. reflexivity.
Qed.

Lemma clean_columns (columns : list string) :
  Forall clean columns -> clean (join ", " columns).
Proof.
  intros H. unfold clean. rewrite placeholders_join_comma.
  unfold placeholders_of. induction H as [|c columns Hc _ IH]; [reflexivity|].
  cbn [map concat]. now rewrite Hc, IH.
Qed.

Lemma show_number_clean (x : number) : clean (show_number x).
Proof. destruct x as [n|]; [apply show_Z_clean | reflexivity]. Qed.

Lemma limit_clause_clean (n : number) (qb : QB.QueryBuilder) :
  clean (QB.limitClause (QB.limit n qb))
  /\ clean (QB.offsetClause (QB.offset n qb)).
Proof.
  pose proof (show_number_clean n) as H. unfold clean, placeholders in *.
  cbn [QB.limit QB.offset QB.limitClause QB.offsetClause append].
  split; scan_literal; exact H.
Qed.

Lemma order_part_clean (col : string) (dir : option Direction) :
  clean col ->
  clean (col ++ " " ++ show_direction (match dir with
                                       | Some d => d
                                       | None => ASC
                                       end)).
Proof.
  unfold clean, placeholders. intros H. cbn [append].
  rewrite scan_app_break, H by reflexivity.
  destruct dir as [[|]|]; reflexivity.
Qed.

Lemma shape_clause_clean (qb : QB.QueryBuilder) (call : Shaping) :
  clean_call (BShape call) ->
  clean (QB.orderByClause qb) -> clean (QB.limitClause qb) ->
  clean (QB.offsetClause qb) ->
  clean (QB.orderByClause (shape qb call))
  /\ clean (QB.limitClause (shape qb call))
  /\ clean (QB.offsetClause (shape qb call)).
Proof.
  intros Hcall Ho Hl Hf. destruct call as [col dir|orders|n|n].
  - repeat split; try assumption.
    cbn [shape QB.orderBy QB.with_orderBy QB.orderByClause].
    pose proof (order_part_clean col dir Hcall) as H.
    unfold clean, placeholders in *. cbn [append]. scan_literal.
    cbn [append] in H. exact H.
  - repeat split; try assumption.
    cbn [shape QB.orderByMultiple QB.with_orderBy QB.orderByClause].
    cbn [clean_call] in Hcall.
    assert (H : clean (join ", "
                  (map (fun o => column o ++ " " ++
                          show_direction (match direction o with
                                          | Some d => d
                                          | None => ASC
                                          end)) orders))).
    { apply clean_columns. induction Hcall as [|o orders Hc _ IH];
        constructor; [now apply order_part_clean | exact IH]. }
    unfold clean, placeholders in *. cbn [append]. scan_literal. exact H.
  - repeat split; try assumption. apply limit_clause_clean.
  - repeat split; try assumption. apply limit_clause_clean.
Qed.

Lemma shape_numbered (qb : QB.QueryBuilder) (call : Shaping) :
  numbered qb -> numbered (shape qb call).
Proof. unfold numbered. now destruct call. Qed.

(** What a chain of clean calls keeps true of the builder. *)
Lemma build_invariant (calls : list BuilderCall) :
  Forall clean_call calls ->
  forall qb,
    numbered qb -> clean (QB.orderByClause qb) ->
    clean (QB.limitClause qb) -> clean (QB.offsetClause qb) ->
    let qb' := fold_left build calls qb in
    numbered qb' /\ clean (QB.orderByClause qb')
    /\ clean (QB.limitClause qb') /\ clean (QB.offsetClause qb')
    /\ QB.tableName qb' = QB.tableName qb.
Proof.
  induction 1 as [|call calls Hcall _ IH]; intros qb Hn Ho Hl Hf; cbn zeta.
  - repeat (split; [assumption|]). reflexivity.
  - cbn [fold_left]. destruct call as [o|s]; cbn [build].
    + destruct (where_fields_keeps o VUndefined qb) as (Ht & H1 & H2 & H3 & _).
      cbn zeta in *.
      destruct (IH (QB.where_ (Fields o) VUndefined qb)) as (A & B & C & D & E).
      * now apply where_fields_numbered.
      * now rewrite H1.
      * now rewrite H2.
      * now rewrite H3.
      * cbn zeta in *. rewrite E, Ht.
        repeat (split; [assumption|]). reflexivity.
    + destruct (shape_clause_clean qb s Hcall Ho Hl Hf) as (H1 & H2 & H3).
      destruct (IH (shape qb s)) as (A & B & C & D & E);
        try assumption; [now apply shape_numbered|].
      cbn zeta in *. rewrite E. repeat (split; [assumption|]).
      now destruct s.
Qed.

(** X3. For a new builder taken through any chain of field-map [where]
    calls and orderBy / orderByMultiple / limit / offset calls, whose
    table, column and key names hold no placeholder-like text, the
    statements of select, delete and count carry exactly [$1 .. $n], left
    to right, for the [n] parameters sent with them. *)
Theorem field_map_chain_is_numbered
    (calls : list BuilderCall) (table : string) (c : option PoolClient)
    (pkType : PrimaryKeyType) (pk : string) (columns : list string) :
  clean table -> Forall clean columns -> Forall clean_call calls ->
  let qb := fold_left build calls (QB.new table c pkType pk) in
  placeholders (QB.select_sql columns qb)
  = seq 1 (length (QB.whereParams qb))
  /\ placeholders (QB.delete_sql qb) = seq 1 (length (QB.whereParams qb))
  /\ placeholders (QB.count_sql qb) = seq 1 (length (QB.whereParams qb)).
Proof.
  intros Ht Hcols Hcalls. cbn zeta.
  destruct (build_invariant calls Hcalls (QB.new table c pkType pk))
    as (Hn & Ho & Hl & Hf & Hname);
    try reflexivity; [apply new_numbered|].
  cbn zeta in *. cbn [QB.new QB.tableName] in Hname.
  set (qb := fold_left build calls (QB.new table c pkType pk)) in *.
  pose proof (numbered_where_clause qb Hn) as Hw.
  pose proof (clean_columns columns Hcols) as Hc.
  unfold clean in *. split; [|split].
  - unfold QB.select_sql. rewrite !placeholders_add_clause.
    rewrite Ho, Hl, Hf, Hw, !app_nil_r, Hname.
    unfold placeholders in *. cbn [append]. scan_literal.
    rewrite scan_app_break, Hc by reflexivity. cbn [app]. scan_literal.
    now rewrite Ht.
  - unfold QB.delete_sql. rewrite Hname. unfold placeholders in *.
    cbn [append]. scan_literal.
    rewrite scan_app_break, Ht by reflexivity. exact Hw.
  - unfold QB.count_sql. rewrite Hname. unfold placeholders in *.
    cbn [append]. scan_literal.
    rewrite scan_app_break, Ht by reflexivity. exact Hw.
Qed.

Lemma field_map_chain_is_numbered_witness :
  let qb :=
    fold_left build
      [BWhere [("id", VArr [VNum 1; VNum 2]); ("deleted_at", VNull)];
       BShape (SOrderBy "created_at" (Some DESC));
       BWhere [("active", VBool true)];
       BShape (SLimit 10)]
      (QB.new "users" None serial "id") in
  QB.select_sql ["id"; "name"] qb
  = "SELECT id, name FROM users WHERE id IN ($1, $2) AND deleted_at IS NULL AND active = $3 ORDER BY created_at DESC LIMIT 10"
  /\ placeholders (QB.select_sql ["id"; "name"] qb)
     = seq 1 (length (QB.whereParams qb)).
Proof.
  cbv zeta. split; [reflexivity|].
  apply (field_map_chain_is_numbered _ "users" None serial "id" ["id"; "name"]).
  - reflexivity.
  - repeat constructor.
  - repeat constructor.
Defined.

(** ** Numbering of INSERT and of the mapper's UPDATE *)







(** ** Finding records *)

Lemma add_clause_cons (query : string) (c : ascii) (clause : string) :
  QB.add_clause query (String c clause) = query ++ " " ++ String c clause.
Proof. reflexivity. Qed.

Lemma first_send (qb : QB.QueryBuilder) (w : World) :
  QB.first qb w
  = send (select_stmt ["*"] (QB.limit 1 qb)) (fun r => hd_error (rows r)) w.
Proof.
  unfold QB.first, bind at 1. rewrite select_send. unfold send, ret.
  destruct (Database.reachable _ w); [|reflexivity].
  now destruct (pg w _ _).
Qed.

(** X6. [Model.find] sends one SELECT of all columns with LIMIT 1 whose
    only condition is on the primary key: [pk = $1] with the id as the
    single parameter for a scalar id, [pk IS NULL] without parameters
    for a null or undefined id, and an IN list for an array id.  It
    returns the first row of the answer as an instance, and null when
    the answer has no row. *)
Theorem find_selects_by_primary_key
    (cls : Model.ModelClass) (id : value)
    (options : option Model.QueryOptions) (w : World) :
  Model.find cls id options w
  = send {| text :=
              "SELECT * FROM " ++ Model.getTableName cls ++ " WHERE "
              ++ Model.getPrimaryKey cls
              ++ match id with
                 | VNull | VUndefined => " IS NULL"
                 | VArr elems =>
                     " IN (" ++ join ", " (fst (QB.in_placeholders elems 1))
                     ++ ")"
                 | _ => " = $1"
                 end
              ++ " LIMIT 1";
            params := appended_values id;
            on_client := Model.opt options Model.qo_client |}
         (fun r => option_map (fun row => assign (Model.fresh cls) row)
                              (hd_error (rows r)))
         w.
Proof.
  unfold Model.find, bind at 1. rewrite first_send.
  set (qb := QB.where_ _ _ _).
  assert (Hs : select_stmt ["*"] (QB.limit 1 qb)
               = {| text :=
                      "SELECT * FROM " ++ Model.getTableName cls ++ " WHERE "
                      ++ Model.getPrimaryKey cls
                      ++ match id with
                         | VNull | VUndefined => " IS NULL"
                         | VArr elems =>
                             " IN ("
                             ++ join ", " (fst (QB.in_placeholders elems 1))
                             ++ ")"
                         | _ => " = $1"
                         end
                      ++ " LIMIT 1";
                    params := appended_values id;
                    on_client := Model.opt options Model.qo_client |}).
  { subst qb. unfold select_stmt, QB.select_sql, Model.query.
    destruct id;
      cbn -[Model.getTableName Model.getPrimaryKey Model.getPrimaryKeyType
            Model.opt QB.in_placeholders append];
      try destruct (QB.in_placeholders elems 1) as [ps k'];
      cbn -[Model.getTableName Model.getPrimaryKey Model.getPrimaryKeyType
            Model.opt append];
      f_equal; cbn [append]; rewrite !add_clause_cons;
      repeat (rewrite ?append_assoc; cbn [append]); reflexivity. }
  rewrite Hs. unfold send, ret. cbn [on_client].
  destruct (Database.reachable _ w); [|reflexivity].
  now destruct (pg w _ _).
Qed.

(** X7. [Model.findOne] always asks for one row: whatever limit the
    caller passes (none, 0, or any other) the statement carries LIMIT 1,
    while the caller's conditions, ordering and offset are those
    [findAll] would use; it returns the first row of the answer as an
    instance, or null. *)
Theorem findOne_limits_to_one
    (cls : Model.ModelClass) (options : option Model.SelectOptions)
    (w : World) :
  let one := Model.findAll_builder cls (Model.with_limit_one options) in
  let all := Model.findAll_builder cls options in
  QB.limitClause one = "LIMIT 1"
  /\ QB.whereConditions one = QB.whereConditions all
  /\ QB.whereParams one = QB.whereParams all
  /\ QB.orderByClause one = QB.orderByClause all
  /\ QB.offsetClause one = QB.offsetClause all
  /\ Model.findOne cls options w
     = send (select_stmt ["*"] one)
            (fun r => option_map (fun row => assign (Model.fresh cls) row)
                                 (hd_error (rows r)))
            w.
Proof.
  cbn zeta. unfold Model.with_limit_one, Model.findAll_builder.
  cbn [Model.opt Model.so_where Model.so_orderBy Model.so_limit
       Model.so_offset Model.so_client Z.eqb number_truthy negb].
  repeat split.
  - destruct (Model.opt options Model.so_offset) as [m|];
      [destruct (number_truthy m)|]; reflexivity.
  - destruct (Model.opt options Model.so_offset) as [m|],
             (Model.opt options Model.so_limit) as [n|];
      try destruct (number_truthy m); try destruct (number_truthy n); reflexivity.
  - destruct (Model.opt options Model.so_offset) as [m|],
             (Model.opt options Model.so_limit) as [n|];
      try destruct (number_truthy m); try destruct (number_truthy n); reflexivity.
  - destruct (Model.opt options Model.so_offset) as [m|],
             (Model.opt options Model.so_limit) as [n|];
      try destruct (number_truthy m); try destruct (number_truthy n); reflexivity.
  - destruct (Model.opt options Model.so_offset) as [m|],
             (Model.opt options Model.so_limit) as [n|];
      try destruct (number_truthy m); try destruct (number_truthy n); reflexivity.
  - unfold Model.findOne, bind at 1, Model.findAll, bind at 1.
    rewrite select_send.
    unfold Model.with_limit_one, Model.findAll_builder.
    cbn [Model.opt Model.so_where Model.so_orderBy Model.so_limit
         Model.so_offset Model.so_client Z.eqb number_truthy negb].
    unfold send, ret.
    destruct (Database.reachable _ w); [|reflexivity].
    destruct (pg w _ _) as [r|e]; [|reflexivity].
    now destruct (rows r).
Qed.

(** X8. [Model.findAll] returns one instance per row of the answer, in
    order; each instance holds every column of its row (for a column
    that occurs once in the row), and for any other property the value a
    new instance of the class starts with. *)
Theorem findAll_materializes_rows
    (cls : Model.ModelClass) (options : option Model.SelectOptions)
    (w : World) :
  Model.findAll cls options w
  = send (select_stmt ["*"] (Model.findAll_builder cls options))
         (fun r => map (Model.materialize cls) (rows r)) w
  /\ (forall r, length (map (Model.materialize cls) (rows r))
               = length (rows r))
  /\ (forall row k,
         NoDup (keys row) ->
         get (Model.materialize cls row) k
         = if has row k then get row k else get (Model.fresh cls) k).
Proof.
  split; [|split].
  - unfold Model.findAll, bind at 1. rewrite select_send. unfold send, ret.
    destruct (Database.reachable _ w); [|reflexivity].
    now destruct (pg w _ _).
  - intros r. apply length_map.
  - intros row k Hnd. unfold Model.materialize. now apply get_assign.
Qed.

Lemma findAll_materializes_rows_witness :
  get (Model.materialize Fixtures.User [("id", VNum 1); ("name", VStr "Ann")])
      "name" = VStr "Ann".
Proof.
  refine (proj2 (proj2 (findAll_materializes_rows Fixtures.User None
                          (Fixtures.world (Fixtures.answers []))))
            [("id", VNum 1); ("name", VStr "Ann")] "name" _).
  repeat constructor; cbn; intuition discriminate.
Defined.

(** ** Instances *)



Lemma toJSON_fold (this l : obj) :
  (forall kv, In kv l -> get this (fst kv) = snd kv) ->
  NoDup (keys l) ->
  forall acc,
    (forall kv, In kv l -> has acc (fst kv) = false) ->
    fold_left
      (fun json kv =>
         let key := fst kv in
         if negb (is_function (get this key))
         then set json key (get this key)
         else json) l acc
    = (acc ++ filter (fun kv => negb (is_function (snd kv))) l)%list.
Proof.
  induction l as [|[k0 v0] l IH]; intros Hget Hnd acc Hacc.
  - cbn. now rewrite app_nil_r.
  - cbn [fold_left filter fst snd]. cbn zeta.
    pose proof (Hget (k0, v0) (or_introl eq_refl)) as Hk.
    cbn [fst snd] in Hk. rewrite Hk.
    cbn [keys map fst] in Hnd. apply NoDup_cons_iff in Hnd as [Hnotin Hnd'].
    assert (Hget' : forall kv', In kv' l -> get this (fst kv') = snd kv')
      by (intros; apply Hget; now right).
    destruct (negb (is_function v0)).
    + rewrite (set_fresh acc k0 v0) by (apply (Hacc (k0, v0)); now left).
      rewrite IH; [now rewrite <- app_assoc | assumption | assumption |].
      intros kv' Hin. rewrite has_app, (Hacc kv') by now right.
      cbn [has orb]. rewrite orb_false_r.
      destruct (k0 =? fst kv') eqn:E; [|reflexivity].
      apply String.eqb_eq in E. exfalso. apply Hnotin. rewrite E.
      unfold keys. now apply in_map.
    + apply IH; try assumption. intros kv' Hin. apply Hacc. now right.
Qed.

Lemma filter_keeps_NoDup (f : string * value -> bool) (o : obj) :
  NoDup (keys o) -> NoDup (keys (filter f o)).
Proof.
  unfold keys. induction o as [|kv o IH]; intros Hnd; [exact Hnd|].
  cbn [map] in Hnd. apply NoDup_cons_iff in Hnd as [Hnotin Hnd].
  cbn [filter]. destruct (f kv); [|now apply IH].
  cbn [map]. constructor; [|now apply IH].
  intros Hin. apply Hnotin. apply in_map_iff in Hin as (kv' & Hk & Hf).
  apply filter_In in Hf as [Hf _]. rewrite <- Hk. now apply in_map.
Qed.

Lemma filter_twice {A} (f : A -> bool) (l : list A) :
  filter f (filter f l) = filter f l.
Proof.
  induction l as [|a l IH]; [reflexivity|]. cbn [filter].
  destruct (f a) eqn:E; [|exact IH]. cbn [filter]. now rewrite E, IH.
Qed.

Lemma filter_and {A} (f g : A -> bool) (l : list A) :
  filter (fun a => f a && g a) l = filter f (filter g l).
Proof.
  induction l as [|a l IH]; [reflexivity|]. cbn [filter].
  destruct (g a); cbn [filter]; rewrite ?andb_true_r, ?andb_false_r.
  - destruct (f a); now rewrite IH.
  - exact IH.
Qed.

Lemma get_filter_not_function (o : obj) (k : string) :
  is_function (get (filter (fun kv => negb (is_function (snd kv))) o) k)
  = false.
Proof.
  induction o as [|[k0 v0] o IH]; [reflexivity|].
  cbn [filter snd]. destruct (is_function v0) eqn:E; cbn [negb]; [exact IH|].
  cbn [get]. now destruct (k0 =? k).
Qed.

Lemma has_filter (f : string * value -> bool) (o : obj) (k : string) :
  has o k = false -> has (filter f o) k = false.
Proof.
  induction o as [|[k0 v0] o IH]; [reflexivity|].
  cbn [has filter]. intros H. apply orb_false_iff in H as [Hk Ho].
  destruct (f (k0, v0)); [|now apply IH].
  cbn [has]. now rewrite Hk, IH.
Qed.

Lemma toJSON_loop_fold (cls : Model.ModelClass) (this l : obj) :
  has this "hasOwnProperty" = false ->
  (forall kv, In kv l -> has this (fst kv) = true) ->
  forall acc,
    Model.toJSON_loop cls this l acc
    = Ok (fold_left
            (fun json kv =>
               let key := fst kv in
               if negb (is_function (get this key))
               then set json key (get this key)
               else json) l acc).
Proof.
  intros Hplain. induction l as [|kv l IH]; intros Hin acc; [reflexivity|].
  cbn [Model.toJSON_loop fold_left]. cbn zeta.
  rewrite hasOwnProperty_plain, (Hin kv (or_introl eq_refl)) by assumption.
  cbn [andb].
  destruct (negb (is_function (get this (fst kv))));
    apply IH; intros kv' H; apply Hin; now right.
Qed.

Lemma toJSON_filter (cls : Model.ModelClass) (this : obj) :
  NoDup (keys this) ->
  has this "hasOwnProperty" = false ->
  Model.toJSON cls this
  = Ok (filter (fun kv => negb (is_function (snd kv))) this).
Proof.
  intros Hnd Hplain. unfold Model.toJSON.
  rewrite toJSON_loop_fold by auto using own_entries.
  rewrite (toJSON_fold this this); auto using get_in_nodup.
Qed.

(** X10. For an instance with no own property named hasOwnProperty,
    [toJSON] returns the own properties of the instance that are not
    functions, in their order and with their values, the primary key
    included; no property of the snapshot is a function; taking the
    snapshot of a snapshot changes nothing; and the data that [save]
    writes are this snapshot without the primary key.  For an instance
    whose own hasOwnProperty is not a function, [toJSON] throws a
    TypeError. *)
Theorem toJSON_is_the_data_snapshot (cls : Model.ModelClass) (this : obj) :
  let snapshot := filter (fun kv => negb (is_function (snd kv))) this in
  (NoDup (keys this) ->
   has this "hasOwnProperty" = false ->
   Model.toJSON cls this = Ok snapshot
   /\ (forall k, is_function (get snapshot k) = false)
   /\ Model.toJSON cls snapshot = Ok snapshot
   /\ (forall pk,
          Model.own_data cls pk this
          = Ok (filter (fun kv => negb (fst kv =? pk)) snapshot)))
  /\ (has this "hasOwnProperty" = true ->
      is_function (get this "hasOwnProperty") = false ->
      Model.toJSON cls this
      = Throw (TypeError "this.hasOwnProperty is not a function")).
Proof.
  cbn zeta. split.
  - intros Hnd Hplain.
    split; [now apply toJSON_filter|]. split; [|split].
    + intros k. apply get_filter_not_function.
    + rewrite toJSON_filter
        by (try apply filter_keeps_NoDup; try apply has_filter; assumption).
      now rewrite filter_twice.
    + intros pk. rewrite own_data_filter by assumption.
      unfold data_fields. now rewrite filter_and.
  - intros Hh Hf. unfold Model.toJSON.
    destruct this as [|kv rest] eqn:E; [discriminate Hh|].
    rewrite <- E in Hh, Hf. rewrite <- E at 1.
    cbn [Model.toJSON_loop]. cbn zeta.
    now rewrite hasOwnProperty_shadowed.
Qed.

Lemma toJSON_is_the_data_snapshot_witness :
  Model.toJSON Fixtures.User
    [("id", VNum 7); ("name", VStr "Ann"); ("greet", VFun "greet")]
  = Ok [("id", VNum 7); ("name", VStr "Ann")].
Proof.
  refine (proj1 (proj1 (toJSON_is_the_data_snapshot Fixtures.User
                   [("id", VNum 7); ("name", VStr "Ann");
                    ("greet", VFun "greet")]) _ eq_refl)).
  repeat constructor; cbn; intuition discriminate.
Defined.

(** X11. The table name and the primary key a model class resolves to
    are never empty: an unset or empty [tableName] gives the class name
    in lower case followed by "s", where for a class name of ASCII
    characters the lower case is that of its letters A to Z; an unset or
    empty [primaryKey] gives "id"; and any other declared name is used
    as it is. *)
Theorem model_names_are_never_empty (cls : Model.ModelClass) :
  Model.getTableName cls <> ""
  /\ Model.getPrimaryKey cls <> ""
  /\ (forall t, Model.tableName cls = Some t -> t <> "" ->
                Model.getTableName cls = t)
  /\ (Model.tableName cls = None \/ Model.tableName cls = Some "" ->
      Model.getTableName cls
      = toLowerCase (Model.name cls) (Model.lowerName cls) ++ "s"
      /\ (ascii_only (Model.name cls) = true ->
          Model.getTableName cls = lower_ascii (Model.name cls) ++ "s"))
  /\ (forall k, Model.primaryKey cls = Some k -> k <> "" ->
                Model.getPrimaryKey cls = k)
  /\ (Model.primaryKey cls = None \/ Model.primaryKey cls = Some "" ->
      Model.getPrimaryKey cls = "id").
Proof.
  assert (Hd : toLowerCase (Model.name cls) (Model.lowerName cls) ++ "s"
               <> "")
    by (destruct (toLowerCase (Model.name cls) (Model.lowerName cls));
        discriminate).
  unfold Model.getTableName, Model.getPrimaryKey.
  repeat match goal with |- _ /\ _ => split end.
  - destruct (Model.tableName cls) as [t|]; [|exact Hd].
    destruct (t =? "") eqn:E; [exact Hd|]. now apply String.eqb_neq.
  - destruct (Model.primaryKey cls) as [k|]; [|discriminate].
    destruct (k =? "") eqn:E; [discriminate|]. now apply String.eqb_neq.
  - intros t -> Ht. apply String.eqb_neq in Ht. now rewrite Ht.
  - intros H. split; [destruct H as [-> | ->]; reflexivity|].
    intros Hascii. unfold toLowerCase. rewrite Hascii.
    destruct H as [-> | ->]; reflexivity.
  - intros k -> Hk. apply String.eqb_neq in Hk. now rewrite Hk.
  - intros [-> | ->]; reflexivity.
Qed.

Lemma model_names_are_never_empty_witness :
  Model.getTableName
    {| Model.name := "OrderItem"; Model.lowerName := "orderitem";
       Model.tableName := None;
       Model.primaryKey := Some ""; Model.primaryKeyType := None;
       Model.fresh := [];
       Model.member_hasOwnProperty := fun this key => Ok (has this key) |}
  = "orderitems".
Proof.
  exact (proj2 (proj1 (proj2 (proj2 (proj2 (model_names_are_never_empty
    {| Model.name := "OrderItem"; Model.lowerName := "orderitem";
       Model.tableName := None;
       Model.primaryKey := Some ""; Model.primaryKeyType := None;
       Model.fresh := [];
       Model.member_hasOwnProperty := fun this key => Ok (has this key) |}))))
    (or_introl eq_refl)) eq_refl).
Defined.

(** ** More on transactions *)

Lemma begin_state (s : Transaction.Transaction * World) :
  snd (Transaction.begin s)
  = (fst s,
     Database.record_stmt (control (Transaction.client (fst s)) "BEGIN")
       (snd s)).
Proof.
  destruct s as [trx w].
  unfold Transaction.begin, bind, Transaction.client_query, Transaction.lift,
    Database.executor_query. cbn [fst snd].
  fold (control (Transaction.client trx) "BEGIN").
  now destruct (pg w (history w) _).
Qed.

Lemma begin_result (s : Transaction.Transaction * World) :
  fst (Transaction.begin s)
  = match pg (snd s) (history (snd s))
             (control (Transaction.client (fst s)) "BEGIN") with
    | Ok _ => Ok tt
    | Throw e => Throw e
    end.
Proof.
  destruct s as [trx w].
  unfold Transaction.begin, bind, Transaction.client_query, Transaction.lift,
    Database.executor_query. cbn [fst snd].
  fold (control (Transaction.client trx) "BEGIN").
  now destruct (pg w (history w) _).
Qed.

(** The state every call on a transaction keeps: the connection is the
    one it was made with, it is not both committed and rolled back, and
    it has been released once if it reached a terminal state and not at
    all otherwise. *)
Lemma tx_step_invariant (c : PoolClient) (base : list PoolClient)
    (s : Transaction.Transaction * World) (call : TxCall) :
  Transaction.client (fst s) = c ->
  Transaction.committed (fst s) && Transaction.rolledBack (fst s) = false ->
  released (snd s)
  = (base ++ if Transaction.committed (fst s)
                || Transaction.rolledBack (fst s)
             then [c] else [])%list ->
  let s' := tx_step s call in
  Transaction.client (fst s') = c
  /\ Transaction.committed (fst s') && Transaction.rolledBack (fst s') = false
  /\ released (snd s')
     = (base ++ if Transaction.committed (fst s')
                   || Transaction.rolledBack (fst s')
                then [c] else [])%list.
Proof.
  intros Hc Hx Hr. cbn zeta. destruct call; cbn [tx_step].
  - rewrite begin_state. cbn [fst snd]. now repeat split.
  - destruct (Transaction.committed (fst s)) eqn:Ec.
    { unfold Transaction.commit. rewrite Ec. cbn [throw snd].
      rewrite Ec. now repeat split. }
    destruct (Transaction.rolledBack (fst s)) eqn:Er.
    { unfold Transaction.commit. rewrite Ec, Er. cbn [throw snd].
      rewrite Ec, Er. now repeat split. }
    rewrite commit_active by assumption.
    destruct (pg _ _ _); cbn [fst snd orb andb Transaction.client
      Transaction.committed Transaction.rolledBack Database.release
      Database.record_stmt released].
    + rewrite Hr, Hc. cbn [orb]. now rewrite app_nil_r.
    + rewrite Ec, Er. now repeat split.
  - destruct (Transaction.committed (fst s)) eqn:Ec.
    { unfold Transaction.rollback. rewrite Ec. cbn [throw snd].
      rewrite Ec. now repeat split. }
    destruct (Transaction.rolledBack (fst s)) eqn:Er.
    { unfold Transaction.rollback. rewrite Ec, Er. cbn [ret snd].
      rewrite Ec, Er. now repeat split. }
    rewrite rollback_active by assumption.
    destruct (pg _ _ _); cbn [fst snd orb andb Transaction.client
      Transaction.committed Transaction.rolledBack Database.release
      Database.record_stmt released].
    + rewrite Hr, Hc. cbn [orb]. now rewrite app_nil_r.
    + rewrite Ec, Er. now repeat split.
Qed.

(** X12. Whatever sequence of begin, commit and rollback calls is made on
    a new transaction, and whatever the driver answers to each
    statement, the transaction is never both committed and rolled back,
    and its connection has been released exactly once if it is committed
    or rolled back and not at all otherwise. *)
Theorem transaction_releases_at_most_once
    (calls : list TxCall) (c : PoolClient) (w : World) :
  let s := tx_run calls (Transaction.new c, w) in
  Transaction.client (fst s) = c
  /\ Transaction.committed (fst s) && Transaction.rolledBack (fst s) = false
  /\ released (snd s)
     = (released w ++ if Transaction.committed (fst s)
                         || Transaction.rolledBack (fst s)
                      then [c] else [])%list.
Proof.
  cbn zeta. unfold tx_run.
  assert (H : forall calls s,
    Transaction.client (fst s) = c ->
    Transaction.committed (fst s) && Transaction.rolledBack (fst s) = false ->
    released (snd s)
    = (released w ++ if Transaction.committed (fst s)
                        || Transaction.rolledBack (fst s)
                     then [c] else [])%list ->
    Transaction.client (fst (fold_left tx_step calls s)) = c
    /\ Transaction.committed (fst (fold_left tx_step calls s))
       && Transaction.rolledBack (fst (fold_left tx_step calls s)) = false
    /\ released (snd (fold_left tx_step calls s))
       = (released w
          ++ if Transaction.committed (fst (fold_left tx_step calls s))
                || Transaction.rolledBack (fst (fold_left tx_step calls s))
             then [c] else [])%list).
  { clear calls. induction calls as [|call calls IH]; intros s H1 H2 H3.
    - now repeat split.
    - cbn [fold_left].
      destruct (tx_step_invariant c (released w) s call H1 H2 H3)
        as (A & B & C).
      now apply IH. }
  apply H; cbn [fst snd Transaction.new Transaction.client
                Transaction.committed Transaction.rolledBack andb orb];
    try reflexivity.
  now rewrite app_nil_r.
Qed.

(** X13. After a successful rollback, [commit] fails with the
    already-rolled-back error and changes nothing.  And when [commit]
    fails on an active transaction (COMMIT was rejected), the
    transaction is still active and its connection unreleased, so that a
    rollback can still be sent. *)
Theorem commit_after_rollback_or_failure
    (s s' : Transaction.Transaction * World) (e : exn) :
  (Transaction.rollback s = (Ok tt, s') ->
   Transaction.commit s'
   = (Throw (Error "Transaction already rolled back"), s'))
  /\ (Transaction.committed (fst s) = false ->
      Transaction.rolledBack (fst s) = false ->
      Transaction.commit s = (Throw e, s') ->
      fst s' = fst s
      /\ released (snd s') = released (snd s)
      /\ history (snd s')
         = (history (snd s)
            ++ [control (Transaction.client (fst s)) "COMMIT"])%list
      /\ Transaction.rollback s'
         = match pg (snd s') (history (snd s'))
                    (control (Transaction.client (fst s)) "ROLLBACK") with
           | Ok _ =>
               (Ok tt,
                ({| Transaction.client := Transaction.client (fst s);
                    Transaction.committed := false;
                    Transaction.rolledBack := true |},
                 snd (Database.release (Transaction.client (fst s))
                        (Database.record_stmt
                           (control (Transaction.client (fst s)) "ROLLBACK")
                           (snd s')))))
           | Throw e' =>
               (Throw e',
                (fst s',
                 Database.record_stmt
                   (control (Transaction.client (fst s)) "ROLLBACK")
                   (snd s')))
           end).
Proof.
  split.
  - intros H.
    assert (Hs : Transaction.committed (fst s') = false
                 /\ Transaction.rolledBack (fst s') = true).
    { destruct (Transaction.committed (fst s)) eqn:Ec.
      { unfold Transaction.rollback in H. rewrite Ec in H. discriminate. }
      destruct (Transaction.rolledBack (fst s)) eqn:Er.
      { unfold Transaction.rollback in H. rewrite Ec, Er in H.
        inversion H. subst s'. now split. }
      rewrite rollback_active in H by assumption.
      destruct (pg _ _ _); inversion H. now split. }
    destruct Hs as [Hc Hr]. unfold Transaction.commit. now rewrite Hc, Hr.
  - intros Hc Hr H. rewrite commit_active in H by assumption.
    destruct (pg _ _ _); inversion H; subst.
    cbn [fst snd Database.record_stmt released history].
    repeat split.
    rewrite rollback_active by assumption. reflexivity.
Qed.

Lemma commit_after_rollback_or_failure_witness :
  let s := (Transaction.new 7, Fixtures.world (Fixtures.answers [])) in
  let lost := (Transaction.new 7, Fixtures.world Fixtures.broken) in
  Transaction.commit (snd (Transaction.rollback s))
  = (Throw (Error "Transaction already rolled back"),
     snd (Transaction.rollback s))
  /\ released (snd (snd (Transaction.commit lost))) = [].
Proof.
  cbv zeta. split.
  - exact (proj1 (commit_after_rollback_or_failure
                    (Transaction.new 7, Fixtures.world (Fixtures.answers []))
                    _ (Error "unused")) eq_refl).
  - exact (proj1 (proj2 (proj2 (commit_after_rollback_or_failure
                    (Transaction.new 7, Fixtures.world Fixtures.broken)
                    _ (Error "Connection terminated unexpectedly"))
                    eq_refl eq_refl eq_refl))).
Defined.

Lemma transaction_run {T} (callback : Transaction.TM T) (w w1 : World)
    (c : PoolClient) :
  Database.getClient w = (Ok c, w1) ->
  Transaction.transaction callback w
  = (let (r, s) :=
       Transaction.transaction_body callback (Transaction.new c, w1) in
     (r, snd s)).
Proof. intros H. unfold Transaction.transaction, bind. now rewrite H. Qed.

(** X14. The unit of work is run only after a connection was acquired
    and BEGIN was accepted: when no connection can be had (the pool is
    not connected, or has none to give) the helper fails with that
    error and sends nothing; when BEGIN is rejected the helper sends
    ROLLBACK and, if that is accepted, fails with the error of BEGIN and
    releases the connection once.  In either case the outcome is the
    same for every unit of work. *)
Theorem unit_of_work_needs_begin
    {T : Type} (callback other : Transaction.TM T) (w : World) :
  match Database.getClient w with
  | (Throw e, w1) =>
      Transaction.transaction callback w = (Throw e, w1)
      /\ history w1 = history w /\ released w1 = released w
  | (Ok c, w1) =>
      forall e,
        pg w1 (history w1) (control c "BEGIN") = Throw e ->
        Transaction.transaction callback w
        = Transaction.transaction other w
        /\ (accepted (control c "ROLLBACK")
              (Database.record_stmt (control c "BEGIN") w1) ->
            fst (Transaction.transaction callback w) = Throw e
            /\ history (snd (Transaction.transaction callback w))
               = (history w1
                  ++ [control c "BEGIN"; control c "ROLLBACK"])%list
            /\ released (snd (Transaction.transaction callback w))
               = (released w1 ++ [c])%list)
  end.
Proof.
  destruct (Database.getClient w) as [[c|e] w1] eqn:Hget.
  - intros e Hbegin.
    assert (Hbody : forall cb : Transaction.TM T,
      Transaction.transaction cb w
      = (let (r, s) :=
           (_ <- Transaction.rollback ;; throw e)
             (Transaction.new c,
              Database.record_stmt (control c "BEGIN") w1) in
         (r, snd s))).
    { intros cb. rewrite (transaction_run cb w w1 c Hget).
      unfold Transaction.transaction_body, try_catch.
      unfold bind at 1.
      pose proof (begin_result (Transaction.new c, w1)) as Hr.
      pose proof (begin_state (Transaction.new c, w1)) as Hs.
      cbn [fst snd Transaction.new Transaction.client] in Hr, Hs.
      rewrite Hbegin in Hr.
      destruct (Transaction.begin (Transaction.new c, w1)) as [r s].
      cbn [fst snd] in Hr, Hs. subst r s.
      cbn [Transaction.new]. reflexivity. }
    split; [now rewrite (Hbody callback), (Hbody other)|].
    intros [k Hrollback]. rewrite (Hbody callback).
    assert (Hrb : (_ <- Transaction.rollback ;; throw (A := T) e)
                    (Transaction.new c,
                     Database.record_stmt (control c "BEGIN") w1)
                  = (Throw e,
                     ({| Transaction.client := c;
                         Transaction.committed := false;
                         Transaction.rolledBack := true |},
                      snd (Database.release c
                             (Database.record_stmt (control c "ROLLBACK")
                                (Database.record_stmt (control c "BEGIN")
                                   w1)))))).
    { unfold bind at 1. rewrite rollback_active by reflexivity.
      cbn [fst snd Transaction.new Transaction.client].
      cbn [Database.record_stmt pg history] in Hrollback |- *.
      rewrite Hrollback. reflexivity. }
    rewrite Hrb. cbn. rewrite <- app_assoc. now repeat split.
  - unfold Transaction.transaction, bind. rewrite Hget.
    split; [reflexivity|].
    unfold Database.getClient, bind, Database.getPool,
      Database.pool_connect in Hget.
    destruct (connected w); [|now inversion Hget].
    destruct (idle w); inversion Hget. now split.
Qed.

Lemma unit_of_work_needs_begin_witness :
  let unit_of_work : Transaction.TM nat := ret 42 in
  let w := Fixtures.world Fixtures.broken in
  Transaction.transaction unit_of_work w
  = Transaction.transaction (throw (Error "boom")) w.
Proof.
  cbv zeta.
  pose proof (unit_of_work_needs_begin
                (ret 42 : Transaction.TM nat) (throw (Error "boom"))
                (Fixtures.world Fixtures.broken)) as H.
  cbn [Database.getClient] in H.
  exact (proj1 (H (Error "Connection terminated unexpectedly") eq_refl)).
Defined.

(** X15. When the unit of work completes normally, leaving the
    transaction active, but COMMIT is rejected, the helper sends
    ROLLBACK; if that is accepted it fails with the error of COMMIT
    (the unit's result is not returned) and the connection is released
    exactly once. *)
Theorem rejected_commit_is_rolled_back
    {T : Type} (callback : Transaction.TM T) (w w1 w2 : World)
    (c : PoolClient) (a : T) (e : exn) :
  Database.getClient w = (Ok c, w1) ->
  accepted (control c "BEGIN") w1 ->
  callback (Transaction.new c, Database.record_stmt (control c "BEGIN") w1)
  = (Ok a, (Transaction.new c, w2)) ->
  pg w2 (history w2) (control c "COMMIT") = Throw e ->
  accepted (control c "ROLLBACK")
    (Database.record_stmt (control c "COMMIT") w2) ->
  fst (Transaction.transaction callback w) = Throw e
  /\ history (snd (Transaction.transaction callback w))
     = (history w2 ++ [control c "COMMIT"; control c "ROLLBACK"])%list
  /\ released (snd (Transaction.transaction callback w))
     = (released w2 ++ [c])%list.
Proof.
  intros Hget [b Hbegin] Hunit Hcommit [k Hrollback].
  assert (Hres : Transaction.transaction callback w
                 = (Throw e,
                    snd (Database.release c
                           (Database.record_stmt (control c "ROLLBACK")
                              (Database.record_stmt (control c "COMMIT")
                                 w2))))).
  { rewrite (transaction_run callback w w1 c Hget).
    unfold Transaction.transaction_body, try_catch. unfold bind at 1.
    pose proof (begin_result (Transaction.new c, w1)) as Hr.
    pose proof (begin_state (Transaction.new c, w1)) as Hs.
    cbn [fst snd Transaction.new Transaction.client] in Hr, Hs.
    rewrite Hbegin in Hr.
    destruct (Transaction.begin (Transaction.new c, w1)) as [r s].
    cbn [fst snd] in Hr, Hs. subst r s.
    unfold bind at 1. cbn [Transaction.new] in Hunit |- *. rewrite Hunit.
    unfold bind at 1. rewrite commit_active by reflexivity.
    cbn [fst snd Transaction.client Transaction.new]. rewrite Hcommit.
    unfold bind at 1. rewrite rollback_active by reflexivity.
    cbn [fst snd Transaction.client Transaction.new].
    cbn [Database.record_stmt pg history] in Hrollback |- *.
    rewrite Hrollback. reflexivity. }
  rewrite Hres. cbn. rewrite <- app_assoc. now repeat split.
Qed.

Lemma rejected_commit_is_rolled_back_witness :
  let w :=
    Fixtures.world
      (fun sent s =>
         if text s =? "COMMIT"
         then Throw (Error "could not serialize access")
         else Ok {| rows := []; rowCount := None |}) in
  let unit_of_work : Transaction.TM nat := ret 42 in
  fst (Transaction.transaction unit_of_work w)
  = Throw (Error "could not serialize access")
  /\ map text (history (snd (Transaction.transaction unit_of_work w)))
     = ["BEGIN"; "COMMIT"; "ROLLBACK"]
  /\ released (snd (Transaction.transaction unit_of_work w)) = [7].
Proof.
  cbv zeta.
  destruct (rejected_commit_is_rolled_back
              (ret 42 : Transaction.TM nat)
              (Fixtures.world
                 (fun sent s =>
                    if text s =? "COMMIT"
                    then Throw (Error "could not serialize access")
                    else Ok {| rows := []; rowCount := None |}))
              _ _ 7 42 (Error "could not serialize access")
              eq_refl (ex_intro _ _ eq_refl) eq_refl eq_refl
              (ex_intro _ _ eq_refl)) as (H1 & H2 & H3).
  split; [exact H1|]. split; [|exact H3]. rewrite H2. reflexivity.
Defined.

(** ** Saving, and running without a connection *)




Lemma send_unreachable {A} (s : Stmt) (f : QueryResult -> A) (w : World) :
  Database.reachable (on_client s) w = false ->
  send s f w
  = (Throw (Error "Database not connected. Call connect() first."), w).
Proof. unfold send. now intros ->. Qed.

(** X17. Without a pinned connection and without a connected pool no
    mapper operation reaches the driver: findAll, find, update (with a
    WHERE object) and a delete that passes the gates all fail with the
    not-connected error and leave the world as it was, and create fails
    with the same error having sent nothing. *)
Theorem nothing_is_sent_without_a_pool (cls : Model.ModelClass) (w : World) :
  connected w = false ->
  let failed {A : Type} : result A * World :=
    (Throw (Error "Database not connected. Call connect() first."), w) in
  (forall wh ob lim off,
      Model.findAll cls (select_options wh ob lim off None) w = failed)
  /\ (forall id, Model.find cls id None w = failed)
  /\ (forall data cond,
         Model.update cls data
           (Some {| Model.uo_where := Some cond; Model.uo_client := None |}) w
         = failed)
  /\ (forall kv cond,
         Model.delete cls
           (Some {| Model.do_where := Some (kv :: cond);
                    Model.do_client := None |}) w
         = failed)
  /\ (forall data,
         fst (Model.create cls data None w)
         = Throw (Error "Database not connected. Call connect() first.")
         /\ history (snd (Model.create cls data None w)) = history w).
Proof.
  intros Hc. cbn zeta.
  assert (Hclient : forall o qb,
            QB.client qb = None ->
            QB.client (QB.where_ (Fields o) VUndefined qb) = None).
  { intros o qb H.
    destruct (where_fields_keeps o VUndefined qb) as (_ & _ & _ & _ & E).
    cbn zeta in E. now rewrite E. }
  split; [|split; [|split; [|split]]].
  - intros wh ob lim off. unfold Model.findAll, bind at 1.
    rewrite select_send, send_unreachable; [reflexivity|].
    cbn [select_stmt on_client]. unfold Database.reachable.
    assert (E : QB.client (Model.findAll_builder cls
                             (select_options wh ob lim off None)) = None).
    { unfold Model.findAll_builder, select_options.
      cbn [Model.opt Model.so_where Model.so_orderBy Model.so_limit
           Model.so_offset Model.so_client].
      assert (B : QB.client
                    (match wh with
                     | Some o => QB.where_ (Fields o) VUndefined
                                   (Model.query cls None)
                     | None => Model.query cls None
                     end) = None)
        by (destruct wh; [now apply Hclient | reflexivity]).
      destruct ob as [[o|os]|], lim as [n|], off as [m|];
        try destruct (number_truthy n); try destruct (number_truthy m); exact B. }
    now rewrite E.
  - intros id. unfold Model.find, bind at 1.
    rewrite first_send, send_unreachable; [reflexivity|].
    cbn [select_stmt on_client QB.limit QB.client Model.opt].
    unfold Database.reachable. now rewrite Hclient.
  - intros data cond. unfold Model.update.
    cbn [Model.opt Model.uo_where Model.uo_client].
    rewrite update_materialized_send, send_unreachable; [reflexivity|].
    cbn [update_stmt on_client]. unfold Database.reachable.
    now rewrite Hclient.
  - intros kv cond. unfold Model.delete.
    cbn [Model.opt Model.do_where Model.do_client].
    rewrite delete_send.
    pose proof (where_fields_length (kv :: cond) VUndefined
                  (Model.query cls None)) as L.
    destruct (QB.whereConditions _); [discriminate L|].
    rewrite send_unreachable; [reflexivity|].
    cbn [delete_stmt on_client]. unfold Database.reachable.
    now rewrite Hclient.
  - intros data. unfold Model.create, bind at 1 2.
    cbn [Model.opt]. rewrite insert_send.
    destruct (generates _ _); rewrite send_unreachable; try now split.
    all: cbn [insert_stmt on_client Model.query QB.new QB.client
              Database.randomUUID snd connected];
         unfold Database.reachable; cbn [connected]; exact Hc.
Qed.

Lemma nothing_is_sent_without_a_pool_witness :
  let w := {| connected := false; idle := []; history := []; released := [];
              uuids := 0; pg := Fixtures.answers [];
              uuid_source := Fixtures.fixed_uuid |} in
  Model.find Fixtures.User (VNum 1) None w
  = (Throw (Error "Database not connected. Call connect() first."), w).
Proof.
  cbv zeta.
  exact (proj1 (proj2 (nothing_is_sent_without_a_pool Fixtures.User
                         {| connected := false; idle := []; history := [];
                            released := []; uuids := 0;
                            pg := Fixtures.answers [];
                            uuid_source := Fixtures.fixed_uuid |} eq_refl))
           (VNum 1)).
Defined.
